(** * A shallow embedding of the President Info Bot ([a10.py])

    Python strings are sequences of Unicode code points; they are modelled
    as [pystr := list nat].  Exceptions are modelled by an error type, and
    the calls the extraction pipeline makes to its collaborators are
    recorded in a trace, giving a small writer/error monad [M]. *)

From Stdlib Require Import String Ascii.
From Stdlib Require Import List Arith Lia Bool.
Import ListNotations.

Definition pystr := list nat.

(** String literals of the source, as code points. *)
Definition str (s : string) : pystr :=
  map nat_of_ascii (list_ascii_of_string s).

Definition SPACE : nat := 32.
Definition NEWLINE : nat := 10.

(** ** [clean_text] *)

(** [string.printable]: digits, ASCII letters, punctuation and the
    whitespace characters [ \t\n\r\x0b\x0c], i.e. code points 9..13 and
    32..126. *)
Definition printable (c : nat) : bool :=
  ((9 <=? c) && (c <=? 13)) || ((32 <=? c) && (c <=? 126)).

(** [char if char in string.printable else " "] *)
Definition scrub (c : nat) : nat := if printable c then c else SPACE.

(** [re.sub(c + "+", c, s)] for a single character [c]: each maximal run
    of [c] is replaced by one [c].  [prev] records that the last
    character emitted belongs to a run of [c] already written. *)
Fixpoint squeeze (c : nat) (prev : bool) (s : pystr) : pystr :=
  match s with
  | [] => []
  | x :: s' =>
      if x =? c then (if prev then squeeze c true s' else x :: squeeze c true s')
      else x :: squeeze c false s'
  end.

Definition re_sub_run (c : nat) (s : pystr) : pystr := squeeze c false s.

Definition clean_text (text : pystr) : pystr :=
  let only_ascii := map scrub text in
  let no_dup_spaces := re_sub_run SPACE only_ascii in
  let no_dup_newlines := re_sub_run NEWLINE no_dup_spaces in
  no_dup_newlines.

(** The spec's reading of cleaning, written independently: split the text
    into maximal runs of equal characters, and replace each run of the
    collapsed character by a single copy of it. *)
Fixpoint runs (s : pystr) : list pystr :=
  match s with
  | [] => []
  | x :: s' =>
      match runs s' with
      | (y :: r) :: rs => if x =? y then (x :: y :: r) :: rs else [x] :: (y :: r) :: rs
      | rs => [x] :: rs
      end
  end.

Definition collapse_run (c : nat) (r : pystr) : pystr :=
  match r with
  | x :: _ => if x =? c then [c] else r
  | [] => []
  end.

Definition collapse_spec (c : nat) (s : pystr) : pystr :=
  concat (map (collapse_run c) (runs s)).

Definition clean_text_spec (text : pystr) : pystr :=
  collapse_spec NEWLINE (collapse_spec SPACE (map scrub text)).

(** [no_rep d pd s]: [s] has no two adjacent [d]s; [pd] says whether the
    character before [s] is a [d]. *)
Fixpoint no_rep (d : nat) (pd : bool) (s : pystr) : Prop :=
  match s with
  | [] => True
  | x :: s' => (x = d -> pd = false) /\ no_rep d (x =? d) s'
  end.

(** ** Exceptions and the trace of collaborator calls *)

Inductive exn :=
  | LookupError (msg : pystr)
  | AttributeError (msg : pystr)
  | IndexError (msg : pystr).

Inductive res (A : Type) : Type :=
  | Ok (a : A)
  | Err (e : exn).
Arguments Ok {A} a.
Arguments Err {A} e.

(** Python values a handler may put in its answer list: [match.group]
    returns a [str], or [None] for a group that did not participate. *)
Inductive pyval :=
  | PyStr (s : pystr)
  | PyNone.

(** ** Regular expressions ([re]) *)

(** The flags of [re.compile]. *)
Record re_flags := { dotall : bool; ignorecase : bool }.

Definition DOTALL : re_flags := {| dotall := true; ignorecase := false |}.
Definition IGNORECASE : re_flags := {| dotall := false; ignorecase := true |}.
Definition flags_or (f g : re_flags) : re_flags :=
  {| dotall := dotall f || dotall g; ignorecase := ignorecase f || ignorecase g |}.

(** Character classes of the six patterns: [.], [\d], [\D], [\s] and
    [[\w\s]].  They are given on ASCII code points, which is all that
    [clean_text] ever produces; case folding is the ASCII one likewise. *)
Inductive cls := CAny | CDigit | CNotDigit | CSpace | CWordSpace.

Definition is_digit (x : nat) : bool := (48 <=? x) && (x <=? 57).
Definition is_space (x : nat) : bool :=
  ((9 <=? x) && (x <=? 13)) || ((28 <=? x) && (x <=? 32)).
Definition is_word (x : nat) : bool :=
  is_digit x || ((65 <=? x) && (x <=? 90)) || ((97 <=? x) && (x <=? 122)) || (x =? 95).

Definition cls_match (fl : re_flags) (k : cls) (x : nat) : bool :=
  match k with
  | CAny => dotall fl || negb (x =? NEWLINE)
  | CDigit => is_digit x
  | CNotDigit => negb (is_digit x)
  | CSpace => is_space x
  | CWordSpace => is_word x || is_space x
  end.

Definition lower (x : nat) : nat := if (65 <=? x) && (x <=? 90) then x + 32 else x.

Definition lit_eq (fl : re_flags) (c x : nat) : bool :=
  if ignorecase fl then lower c =? lower x else c =? x.

(** Regular expressions; every repetition in the source's patterns is
    over a single character class. *)
Inductive regex :=
  | REmpty
  | RLit (c : nat)              (* a literal character *)
  | RCls (k : cls)              (* one character of a class *)
  | RStar (k : cls)             (* k*  (greedy) *)
  | RLazy (k : cls)             (* k*? (lazy) *)
  | RPlus (k : cls)             (* k+  (greedy) *)
  | RSeq (r1 r2 : regex)
  | RGroup (n : nat) (r : regex).  (* capturing group number n *)

Fixpoint rseq (rs : list regex) : regex :=
  match rs with
  | [] => REmpty
  | [r] => r
  | r :: rs' => RSeq r (rseq rs')
  end.

Definition rlits (s : string) : regex := rseq (map RLit (str s)).

(** [k{n}] *)
Definition rrep (k : cls) (n : nat) : regex := rseq (repeat (RCls k) n).

(** Captures: group number and span, the latest first. *)
Definition caps := list (nat * (nat * nat)).

Fixpoint run_len (fl : re_flags) (k : cls) (s : pystr) : nat :=
  match s with
  | [] => 0
  | x :: s' => if cls_match fl k x then S (run_len fl k s') else 0
  end.

Fixpoint find_map {A B : Type} (f : A -> option B) (l : list A) : option B :=
  match l with
  | [] => None
  | x :: l' => match f x with Some y => Some y | None => find_map f l' end
  end.

(** The backtracking matcher, in continuation-passing style: [m_at fl r t
    i cs k] matches [r] in [t] at position [i] and passes the end position
    and the captures to [k]; alternatives are tried in the order of
    Python's engine (greedy repetitions from the longest, lazy ones from
    the shortest). *)
Fixpoint m_at (fl : re_flags) (r : regex) (t : pystr) (i : nat) (cs : caps)
    (k : nat -> caps -> option (nat * caps)) : option (nat * caps) :=
  match r with
  | REmpty => k i cs
  | RLit c =>
      match nth_error t i with
      | Some x => if lit_eq fl c x then k (S i) cs else None
      | None => None
      end
  | RCls q =>
      match nth_error t i with
      | Some x => if cls_match fl q x then k (S i) cs else None
      | None => None
      end
  | RStar q => find_map (fun j => k (i + j) cs) (rev (seq 0 (S (run_len fl q (skipn i t)))))
  | RLazy q => find_map (fun j => k (i + j) cs) (seq 0 (S (run_len fl q (skipn i t))))
  | RPlus q => find_map (fun j => k (i + j) cs) (rev (seq 1 (run_len fl q (skipn i t))))
  | RSeq r1 r2 => m_at fl r1 t i cs (fun j cs' => m_at fl r2 t j cs' k)
  | RGroup n r1 => m_at fl r1 t i cs (fun j cs' => k j ((n, (i, j)) :: cs'))
  end.

(** A compiled pattern ([re.compile]) and a match object. *)
Record re_pattern := { p_flags : re_flags; p_regex : regex }.
Record re_match := { m_text : pystr; m_start : nat; m_end : nat; m_caps : caps }.

Definition re_compile (r : regex) (fl : re_flags) : re_pattern :=
  {| p_flags := fl; p_regex := r |}.

Definition match_at (p : re_pattern) (t : pystr) (i : nat) : option re_match :=
  match m_at (p_flags p) (p_regex p) t i [] (fun j cs => Some (j, cs)) with
  | Some (j, cs) => Some {| m_text := t; m_start := i; m_end := j; m_caps := cs |}
  | None => None
  end.

(** [p.search(text)]: the first position, from 0 to [len(text)], where
    the pattern matches. *)
Definition search (p : re_pattern) (t : pystr) : option re_match :=
  find_map (match_at p t) (seq 0 (S (length t))).

Fixpoint lookup_cap (n : nat) (cs : caps) : option (nat * nat) :=
  match cs with
  | [] => None
  | (n', sp) :: cs' => if n =? n' then Some sp else lookup_cap n cs'
  end.

(** [m.group(n)] *)
Definition group (mt : re_match) (n : nat) : pyval :=
  match lookup_cap n (m_caps mt) with
  | Some (a, b) => PyStr (firstn (b - a) (skipn a (m_text mt)))
  | None => PyNone
  end.

(** The six patterns of the extractors (named groups are numbered). *)

(** Source pattern (a raw string of the source). *)
Definition name_pattern_src : string := "(?:President)(?:.*?)(?P<president>[\w\s]+)(?:.*?)".

(** The regular expression of [name_pattern_src]. *)
Definition name_pattern : regex :=
  rseq [rlits "President"; RLazy CAny; RGroup 1 (RPlus CWordSpace); RLazy CAny].

(** Source pattern (a raw string of the source). *)
Definition term_pattern_src : string := "(?:Term\s*of\s*office\s*).*?(\d{4}-\d{4})".

(** The regular expression of [term_pattern_src]. *)
Definition term_pattern : regex :=
  rseq [rlits "Term"; RStar CSpace; rlits "of"; RStar CSpace; rlits "office";
        RStar CSpace; RLazy CAny;
        RGroup 1 (rseq [rrep CDigit 4; RLit 45; rrep CDigit 4])].

(** Source pattern (a raw string of the source). *)
Definition party_pattern_src : string := "(?:Political\s*party\s*).*?([\w\s]+)".

(** The regular expression of [party_pattern_src]. *)
Definition party_pattern : regex :=
  rseq [rlits "Political"; RStar CSpace; rlits "party"; RStar CSpace; RLazy CAny;
        RGroup 1 (RPlus CWordSpace)].

(** Source pattern (a raw string of the source). *)
Definition birth_pattern_src : string := "(?:Born\D*)(?P<birth>\d{4}-\d{2}-\d{2})".

(** The regular expression of [birth_pattern_src]. *)
Definition birth_pattern : regex :=
  rseq [rlits "Born"; RStar CNotDigit;
        RGroup 1 (rseq [rrep CDigit 4; RLit 45; rrep CDigit 2; RLit 45; rrep CDigit 2])].

(** Source pattern (a raw string of the source). *)
Definition predecessor_pattern_src : string := "(?:Predecessor\s*).*?([\w\s]+)".

(** The regular expression of [predecessor_pattern_src]. *)
Definition predecessor_pattern : regex :=
  rseq [rlits "Predecessor"; RStar CSpace; RLazy CAny; RGroup 1 (RPlus CWordSpace)].

(** Source pattern (a raw string of the source). *)
Definition successor_pattern_src : string := "(?:Successor\s*).*?([\w\s]+)".

(** The regular expression of [successor_pattern_src]. *)
Definition successor_pattern : regex :=
  rseq [rlits "Successor"; RStar CSpace; RLazy CAny; RGroup 1 (RPlus CWordSpace)].

(** ** The extraction pipeline *)

(** Calls to the collaborators and steps of the pipeline, in order. *)
Inductive event :=
  | ESearch (title : pystr)    (* wikipedia.search *)
  | EFetch (page : pystr)      (* WikipediaPage(...).html() *)
  | ELocate                    (* BeautifulSoup(...).find_all(class_="infobox") *)
  | EClean                     (* clean_text *)
  | EMatch (pattern : regex).  (* re.compile(...).search *)

Definition M (A : Type) : Type := list event * res A.

Definition ret {A} (a : A) : M A := ([], Ok a).
Definition raise {A} (e : exn) : M A := ([], Err e).
Definition lift {A} (r : res A) : M A := ([], r).
Definition log (ev : event) : M unit := ([ev], Ok tt).
Definition bind {A B} (m : M A) (f : A -> M B) : M B :=
  match m with
  | (tr, Err e) => (tr, Err e)
  | (tr, Ok a) => let (tr', r) := f a in (tr ++ tr', r)
  end.

Notation "'let*' x ':=' m 'in' f" := (bind m (fun x => f))
  (at level 200, x name, m at level 100, f at level 200).

(** Parsed HTML: text, or an element with its tag, its classes and its
    children. *)
Inductive node :=
  | NText (s : pystr)
  | NElem (tag : pystr) (classes : list pystr) (children : list node).

Definition pystr_eqb (a b : pystr) : bool :=
  if list_eq_dec Nat.eq_dec a b then true else false.

(** All elements below a node, in document order. *)
Fixpoint descendants (n : node) : list node :=
  match n with
  | NText _ => []
  | NElem _ _ ch =>
      n :: (fix go (l : list node) : list node :=
              match l with [] => [] | x :: l' => descendants x ++ go l' end) ch
  end.

(** [.text]: all the strings below a node, concatenated. *)
Fixpoint node_text (n : node) : pystr :=
  match n with
  | NText s => s
  | NElem _ _ ch =>
      (fix go (l : list node) : pystr :=
         match l with [] => [] | x :: l' => node_text x ++ go l' end) ch
  end.

Definition has_class (c : pystr) (n : node) : bool :=
  match n with
  | NText _ => false
  | NElem _ cl _ => existsb (pystr_eqb c) cl
  end.

(** [soup.find_all(class_=c)]: the elements of the document, in document
    order, with class [c]. *)
Definition find_all (c : pystr) (soup : list node) : list node :=
  filter (has_class c) (flat_map descendants soup).

(** ** The template matcher

    Modelled from the spec: the module [match] imported by [a10.py]
    ([from match import match]) is not part of the sources.  The spec
    says: a template is a token list with one wildcard token [%] standing
    for one or more words; literal tokens must equal the corresponding
    input tokens; the wildcard is greedy but leaves the template's
    trailing literal tokens to match; the result holds, for the wildcard,
    the substring of the input it consumed (its tokens joined by a
    space); no match is [None].  The tokens after the wildcard are
    compared literally. *)
Fixpoint join_words (l : list pystr) : pystr :=
  match l with
  | [] => []
  | [w] => w
  | w :: l' => w ++ [SPACE] ++ join_words l'
  end.

Definition tokens_eqb (a b : list pystr) : bool :=
  if list_eq_dec (list_eq_dec Nat.eq_dec) a b then true else false.

Definition WILDCARD : pystr := str "%".

Fixpoint match_ (pattern source : list pystr) : option (list pystr) :=
  match pattern with
  | [] => match source with [] => Some [] | _ :: _ => None end
  | p :: pat' =>
      if pystr_eqb p WILDCARD then
        let n := length source - length pat' in
        if (1 <=? n) && tokens_eqb pat' (skipn n source)
        then Some [join_words (firstn n source)] else None
      else
        match source with
        | [] => None
        | s :: src' => if pystr_eqb p s then match_ pat' src' else None
        end
  end.

(** ["..."].split() for the templates *)
Definition toks (l : list string) : list pystr := map str l.

Definition pa_templates : list (list pystr) :=
  [toks (["who"; "is"; "the"; "president"; "of"; "%"])%string;
   toks (["what"; "is"; "the"; "term"; "of"; "the"; "president"; "of"; "%"])%string;
   toks (["what"; "is"; "the"; "political"; "party"; "of"; "the"; "president"; "of"; "%"])%string;
   toks (["when"; "was"; "the"; "president"; "of"; "%"; "born"])%string;
   toks (["who"; "was"; "the"; "predecessor"; "of"; "the"; "president"; "of"; "%"])%string;
   toks (["who"; "is"; "the"; "successor"; "of"; "the"; "president"; "of"; "%"])%string].

Section Bot.

(** The collaborators: [wikipedia.search], [WikipediaPage(title).html()]
    (either may fail) and [BeautifulSoup(html, "html.parser")]. *)
Variable wikipedia_search : pystr -> res (list pystr).
Variable page_html : pystr -> res pystr.
Variable html_parser : pystr -> list node.

Definition get_page_html (title : pystr) : M pystr :=
  let* _ := log (ESearch title) in
  let* results := lift (wikipedia_search title) in
  match results with
  | [] => raise (IndexError (str "list index out of range"))
  | r0 :: _ => let* _ := log (EFetch r0) in lift (page_html r0)
  end.

Definition get_first_infobox_text (html : pystr) : M pystr :=
  let* _ := log ELocate in
  let soup := html_parser html in
  match find_all (str "infobox") soup with
  | [] => raise (LookupError (str "Page has no infobox"))
  | r0 :: _ => ret (node_text r0)
  end.

Definition clean_step (text : pystr) : M pystr :=
  let* _ := log EClean in ret (clean_text text).

Definition get_match (text : pystr) (pattern : regex) (error_text : pystr) : M re_match :=
  let* _ := log (EMatch pattern) in
  let p := re_compile pattern (flags_or DOTALL IGNORECASE) in
  match search p text with
  | None => raise (AttributeError error_text)
  | Some mt => ret mt
  end.

(** The last step of the six [get_president_*] functions:
    [match = get_match(infobox_text, pattern, error_text)] and
    [return match.group(grp)]. *)
Definition extract_field (pattern : regex) (error_text : pystr) (grp : nat)
    (infobox_text : pystr) : M pyval :=
  let* mt := get_match infobox_text pattern error_text in
  ret (group mt grp).

(** The common body of the six [get_president_*] functions. *)
Definition extract (pattern : regex) (error_text : pystr) (grp : nat)
    (country_name : pystr) : M pyval :=
  let* html := get_page_html country_name in
  let* box := get_first_infobox_text html in
  let* infobox_text := clean_step box in
  extract_field pattern error_text grp infobox_text.

Definition name_error := str "Page infobox has no president information".
Definition term_error := str "Page infobox has no term information".
Definition party_error := str "Page infobox has no political party information".
Definition birth_error :=
  str "Page infobox has no birth information (at least none in xxxx-xx-xx format)".
Definition predecessor_error := str "Page infobox has no predecessor information".
Definition successor_error := str "Page infobox has no successor information".

Definition get_president_name := extract name_pattern name_error 1.
Definition get_president_term := extract term_pattern term_error 1.
Definition get_president_party := extract party_pattern party_error 1.
Definition get_president_birth := extract birth_pattern birth_error 1.
Definition get_president_predecessor := extract predecessor_pattern predecessor_error 1.
Definition get_president_successor := extract successor_pattern successor_error 1.

(** [[get_president_*(matches[0])]] *)
Definition handler (get : pystr -> M pyval) (matches : list pystr) : M (list pyval) :=
  match matches with
  | [] => raise (IndexError (str "list index out of range"))
  | m0 :: _ => let* x := get m0 in ret [x]
  end.

Definition president_name := handler get_president_name.
Definition president_term := handler get_president_term.
Definition president_party := handler get_president_party.
Definition president_birth := handler get_president_birth.
Definition president_predecessor := handler get_president_predecessor.
Definition president_successor := handler get_president_successor.

Definition action := list pystr -> M (list pyval).

Definition pa_list : list (list pystr * action) :=
  combine pa_templates
    [president_name; president_term; president_party; president_birth;
     president_predecessor; president_successor].

(** The loop of [search_pa_list], over a given pattern-action list. *)
Fixpoint search_pa_list_with (pas : list (list pystr * action)) (src : list pystr)
    : M (list pyval) :=
  match pas with
  | [] => ret [PyStr (str "I don't understand")]
  | (pat, act) :: rest =>
      match match_ pat src with
      | Some mat =>
          let* answer := act mat in
          ret (match answer with [] => [PyStr (str "No answers")] | _ :: _ => answer end)
      | None => search_pa_list_with rest src
      end
  end.

Definition search_pa_list (src : list pystr) : M (list pyval) :=
  search_pa_list_with pa_list src.

Definition extractors : list (pystr -> M pyval) :=
  [get_president_name; get_president_term; get_president_party; get_president_birth;
   get_president_predecessor; get_president_successor].

End Bot.


(** ** Auxiliary notions for the statements about the regular expressions *)

(** The flags [re.DOTALL | re.IGNORECASE] used by [get_match]. *)
Definition search_flags : re_flags := flags_or DOTALL IGNORECASE.

(** [mandatory n r]: every match of [r] sets group [n]. *)
Fixpoint mandatory (n : nat) (r : regex) : bool :=
  match r with
  | RSeq r1 r2 => mandatory n r1 || mandatory n r2
  | RGroup n' r1 => (n =? n') || mandatory n r1
  | _ => false
  end.


Definition single_ok (fl : re_flags) (r : regex) (x : nat) : bool :=
  match r with
  | RLit c => lit_eq fl c x
  | RCls q => cls_match fl q x
  | _ => false
  end.

Fixpoint singles_ok (fl : re_flags) (rs : list regex) (s : pystr) : bool :=
  match rs, s with
  | [], _ => true
  | r :: rs', x :: s' => single_ok fl r x && singles_ok fl rs' s'
  | _ :: _, [] => false
  end.

(** [\d{4}-\d{2}-\d{2}] as a list of one-character expressions. *)
Definition date_singles : list regex :=
  repeat (RCls CDigit) 4 ++ [RLit 45] ++ repeat (RCls CDigit) 2 ++ [RLit 45]
  ++ repeat (RCls CDigit) 2.


(** [s] starts with a [YYYY-MM-DD]-shaped date. *)
Definition date_shape (s : pystr) : bool :=
  match s with
  | y1 :: y2 :: y3 :: y4 :: h1 :: m1 :: m2 :: h2 :: d1 :: d2 :: _ =>
      forallb is_digit [y1; y2; y3; y4; m1; m2; d1; d2] && (h1 =? 45) && (h2 =? 45)
  | _ => false
  end.


(** ** What a match of a regular expression covers *)

(** Every character of [t] from position [i] up to [j] is in class [q]. *)
Definition in_class_between (fl : re_flags) (q : cls) (t : pystr) (i j : nat) : Prop :=
  forall m, i <= m < j -> exists x, nth_error t m = Some x /\ cls_match fl q x = true.

(** [matches fl t r i j]: [r] matches the characters of [t] from
    position [i] up to [j]. *)
Inductive matches (fl : re_flags) (t : pystr) : regex -> nat -> nat -> Prop :=
  | MEmpty i : matches fl t REmpty i i
  | MLit c i x : nth_error t i = Some x -> lit_eq fl c x = true -> matches fl t (RLit c) i (S i)
  | MCls q i x : nth_error t i = Some x -> cls_match fl q x = true -> matches fl t (RCls q) i (S i)
  | MStar q i j : i <= j -> in_class_between fl q t i j -> matches fl t (RStar q) i j
  | MLazy q i j : i <= j -> in_class_between fl q t i j -> matches fl t (RLazy q) i j
  | MPlus q i j : i < j -> in_class_between fl q t i j -> matches fl t (RPlus q) i j
  | MSeq r1 r2 i j l : matches fl t r1 i j -> matches fl t r2 j l -> matches fl t (RSeq r1 r2) i l
  | MGroup n r i j : matches fl t r i j -> matches fl t (RGroup n r) i j.

(** The capturing groups of a pattern, with their numbers. *)
Fixpoint groups (r : regex) : list (nat * regex) :=
  match r with
  | RSeq r1 r2 => groups r1 ++ groups r2
  | RGroup n r1 => (n, r1) :: groups r1
  | _ => []
  end.

(** A pattern that is a sequence of one-character expressions. *)
Fixpoint flat (r : regex) : option (list regex) :=
  match r with
  | REmpty => Some []
  | RLit c => Some [RLit c]
  | RCls q => Some [RCls q]
  | RSeq r1 r2 =>
      match flat r1, flat r2 with
      | Some a, Some b => Some (a ++ b)
      | _, _ => None
      end
  | _ => None
  end.

(** [s] is a [YYYY-YYYY] span. *)
Definition year_span_shape (s : pystr) : bool :=
  match s with
  | [y1; y2; y3; y4; h; z1; z2; z3; z4] =>
      forallb is_digit [y1; y2; y3; y4; z1; z2; z3; z4] && (h =? 45)
  | _ => false
  end.

(** ** The first three steps of the extractors *)

(** [get_page_html], [get_first_infobox_text] and [clean_text], as every
    [get_president_*] function runs them before its pattern. *)
Definition cleaned_infobox wikipedia_search page_html html_parser (country_name : pystr)
    : M pystr :=
  let* html := get_page_html wikipedia_search page_html country_name in
  let* box := get_first_infobox_text html_parser html in
  clean_step box.

(** ** Two templates that can never match the same input

    [literal_clash a b]: before either reaches its wildcard, [a] and [b]
    have different literal tokens at the same position. *)
Fixpoint literal_clash (a b : list pystr) : bool :=
  match a, b with
  | x :: a', y :: b' =>
      if pystr_eqb x WILDCARD || pystr_eqb y WILDCARD then false
      else if pystr_eqb x y then literal_clash a' b' else true
  | _, _ => false
  end.

(** ** [query_loop] *)

(** [str.split()] without arguments: the maximal runs of non-whitespace
    characters ([cur] is the current run, reversed). *)
Fixpoint split_go (cur : pystr) (s : pystr) : list pystr :=
  match s with
  | [] => match cur with [] => [] | _ :: _ => [rev cur] end
  | x :: s' =>
      if is_space x then
        match cur with
        | [] => split_go [] s'
        | _ :: _ => rev cur :: split_go [] s'
        end
      else split_go (x :: cur) s'
  end.

Definition py_split (s : pystr) : list pystr := split_go [] s.

Definition QMARK : nat := 63.

(** [.replace("?", "")] *)
Definition remove_qmark (s : pystr) : pystr := filter (fun x => negb (x =? QMARK)) s.

(** [input(...).replace("?", "").lower().split()] on an ASCII line:
    [lower] is the ASCII case mapping and [is_space] the ASCII whitespace,
    which are what [str.lower] and [str.split] use on ASCII text (on other
    text Python also maps non-ASCII letters and splits at non-ASCII
    spaces). *)
Definition query_tokens (line : pystr) : list pystr :=
  py_split (map lower (remove_qmark line)).

(** What [input] gets: a line, or Ctrl-C ([KeyboardInterrupt]); the end
    of the list is the end of the input ([EOFError]). *)
Inductive stdin_event :=
  | Line (l : pystr)
  | Interrupt.

(** How [query_loop] ends: it leaves the loop, or an exception escapes. *)
Inductive outcome :=
  | Finished
  | Raised (e : exn).

(** [print(x)] writes [str(x)] and a newline. *)
Definition print_val (v : pyval) : pystr :=
  match v with
  | PyStr s => s ++ [NEWLINE]
  | PyNone => str "None" ++ [NEWLINE]
  end.

Definition prompt : pystr := str "Your query? ".

(** [print("Welcome to the President Info Bot!\n")] *)
Definition welcome : pystr := str "Welcome to the President Info Bot!" ++ [NEWLINE; NEWLINE].

(** [print("\nGoodbye!\n")] *)
Definition goodbye : pystr := [NEWLINE] ++ str "Goodbye!" ++ [NEWLINE; NEWLINE].

(** The [while True] loop: the chunks written to standard output, and how
    the loop ends.  [print()] and the prompt of [input] are written before
    the input is read; [KeyboardInterrupt] and [EOFError] leave the loop,
    any other exception of [search_pa_list] escapes it. *)
Fixpoint query_loop_body wikipedia_search page_html html_parser (inp : list stdin_event)
    : list pystr * outcome :=
  let head := [[NEWLINE]; prompt] in
  match inp with
  | [] | Interrupt :: _ => (head, Finished)
  | Line l :: rest =>
      match snd (search_pa_list wikipedia_search page_html html_parser (query_tokens l)) with
      | Err e => (head, Raised e)
      | Ok answers =>
          let (out, r) := query_loop_body wikipedia_search page_html html_parser rest in
          (head ++ map print_val answers ++ out, r)
      end
  end.

Definition query_loop wikipedia_search page_html html_parser (inp : list stdin_event)
    : list pystr * outcome :=
  let (out, r) := query_loop_body wikipedia_search page_html html_parser inp in
  match r with
  | Finished => (welcome :: out ++ [goodbye], Finished)
  | Raised e => (welcome :: out, Raised e)
  end.

(** ** A sample page *)

(** A search with one hit, a page, and a parse with one infobox. *)
Definition sample_search : pystr -> res (list pystr) := fun _ => Ok [str "France"].

Definition sample_page : pystr -> res pystr := fun _ => Ok (str "<html>").

Definition sample_infobox : pystr :=
  str ("President Emmanuel Macron, Term of office 2017-2027, Political party Renaissance, "
       ++ "Born 1977-12-21, Predecessor Francois Hollande, Successor Incumbent").

Definition sample_parser : pystr -> list node :=
  fun _ => [NElem (str "table") [str "infobox"] [NText sample_infobox]].

(* ================================================================= *)
(** * Properties *)

(** ** Cleaning *)

Lemma runs_cons_shape : forall x s, exists r rs, runs (x :: s) = (x :: r) :: rs.
Proof.
  intros x s; simpl.
  destruct (runs s) as [| [| y r] rs]; eauto.
  destruct (x =? y); eauto.
Qed.

Lemma squeeze_collapse_spec : forall c s,
  squeeze c false s = collapse_spec c s /\
  squeeze c true s = match s with
                     | x :: _ => if x =? c then tl (collapse_spec c s) else collapse_spec c s
                     | [] => [] end.
Proof.
  intros c s; induction s as [| x s IH]; [split; reflexivity |].
  destruct IH as [IHf IHt].
  destruct s as [| y s].
  - unfold collapse_spec; simpl; destruct (x =? c) eqn:Ex; simpl;
      [apply Nat.eqb_eq in Ex; subst; split; reflexivity | split; reflexivity].
  - destruct (runs_cons_shape y s) as [r [rs E]].
    unfold collapse_spec in *.
    change (runs (x :: y :: s)) with
      (match runs (y :: s) with
       | (y :: r) :: rs => if x =? y then (x :: y :: r) :: rs else [x] :: (y :: r) :: rs
       | rs => [x] :: rs end).
    rewrite E in *. cbn [squeeze map concat collapse_run] in *.
    destruct (x =? c) eqn:Exc, (x =? y) eqn:Exy, (y =? c) eqn:Eyc;
      apply Nat.eqb_eq in Exc || apply Nat.eqb_neq in Exc;
      apply Nat.eqb_eq in Exy || apply Nat.eqb_neq in Exy;
      apply Nat.eqb_eq in Eyc || apply Nat.eqb_neq in Eyc;
      subst; try congruence; cbn [map concat collapse_run app tl] in *;
      rewrite ?Nat.eqb_refl in *; cbn [map concat collapse_run app tl] in *;
      split; try reflexivity;
      rewrite ?IHt, ?IHf; try reflexivity;
      try (apply Nat.eqb_neq in Exc; rewrite Exc);
      try (apply Nat.eqb_neq in Eyc; rewrite Eyc); reflexivity.
Qed.

Lemma re_sub_run_spec : forall c s, re_sub_run c s = collapse_spec c s.
Proof. intros; apply squeeze_collapse_spec. Qed.

Lemma squeeze_no_rep_self : forall c s p, no_rep c p (squeeze c p s).
Proof.
  intros c s; induction s as [| x s IH]; intros p; simpl; [exact I |].
  destruct (x =? c) eqn:E.
  - apply Nat.eqb_eq in E; subst. destruct p; [apply IH |].
    simpl; rewrite Nat.eqb_refl; split; [reflexivity | apply IH].
  - apply Nat.eqb_neq in E. simpl; rewrite (proj2 (Nat.eqb_neq x c) E).
    split; [intros; contradiction | apply IH].
Qed.

Lemma squeeze_no_rep_other : forall c d s pd p,
  c <> d -> (p = true -> pd = false) -> no_rep d pd s -> no_rep d pd (squeeze c p s).
Proof.
  intros c d s; induction s as [| x s IH]; intros pd p Hcd Hp H; simpl; [exact I |].
  destruct H as [Hx Hs].
  destruct (x =? c) eqn:E.
  - apply Nat.eqb_eq in E; subst.
    rewrite (proj2 (Nat.eqb_neq c d) Hcd) in Hs.
    destruct p.
    + rewrite (Hp eq_refl). apply IH; auto.
    + simpl; rewrite (proj2 (Nat.eqb_neq c d) Hcd).
      split; [intro; congruence | apply IH; auto].
  - simpl; split; [exact Hx | apply IH; auto; discriminate].
Qed.

Lemma squeeze_no_rep_id : forall c s p, no_rep c p s -> squeeze c p s = s.
Proof.
  intros c s; induction s as [| x s IH]; intros p H; simpl; [reflexivity |].
  destruct H as [Hx Hs].
  destruct (x =? c) eqn:E.
  - apply Nat.eqb_eq in E; subst. rewrite (Hx eq_refl).
    f_equal; apply IH; exact Hs.
  - f_equal; apply IH; exact Hs.
Qed.

Lemma squeeze_incl : forall c s p x, In x (squeeze c p s) -> In x s.
Proof.
  intros c s; induction s as [| y s IH]; intros p x H; simpl in *; [exact H |].
  destruct (y =? c), p; simpl in H;
    first [ right; eapply IH; exact H
          | destruct H as [H | H]; [left; exact H | right; eapply IH; exact H] ].
Qed.

Lemma no_rep_not_adjacent : forall d u v pd, ~ no_rep d pd (u ++ d :: d :: v).
Proof.
  intros d u; induction u as [| x u IH]; intros v pd H; simpl in H.
  - destruct H as [_ [H _]]. rewrite Nat.eqb_refl in H. discriminate (H eq_refl).
  - destruct H as [_ H]. eapply IH; exact H.
Qed.

Lemma scrub_printable : forall c, printable (scrub c) = true.
Proof.
  intros c; unfold scrub; destruct (printable c) eqn:E; [exact E | reflexivity].
Qed.

Lemma clean_text_printable : forall s x, In x (clean_text s) -> printable x = true.
Proof.
  intros s x H; unfold clean_text, re_sub_run in H.
  apply squeeze_incl, squeeze_incl in H.
  apply in_map_iff in H; destruct H as [y [<- _]]; apply scrub_printable.
Qed.

Lemma clean_text_no_rep_space : forall s, no_rep SPACE false (clean_text s).
Proof.
  intros s; unfold clean_text, re_sub_run.
  apply squeeze_no_rep_other; [discriminate | discriminate | apply squeeze_no_rep_self].
Qed.

Lemma clean_text_no_rep_newline : forall s, no_rep NEWLINE false (clean_text s).
Proof. intros s; unfold clean_text, re_sub_run; apply squeeze_no_rep_self. Qed.

Lemma printable_ascii : forall x, printable x = true -> x < 128.
Proof.
  intros x H; unfold printable in H.
  apply orb_true_iff in H; destruct H as [H | H]; apply andb_true_iff in H;
    destruct H as [_ H]; apply Nat.leb_le in H; lia.
Qed.

Lemma map_scrub_id : forall s, (forall x, In x s -> printable x = true) -> map scrub s = s.
Proof.
  intros s; induction s as [| x s IH]; intros H; simpl; [reflexivity |].
  unfold scrub at 1; rewrite (H x (or_introl eq_refl)).
  f_equal; apply IH; intros y Hy; apply H; right; exact Hy.
Qed.

(** ** Lists *)

Lemma find_map_some : forall {A B} (f : A -> option B) l y,
  find_map f l = Some y -> exists x, In x l /\ f x = Some y.
Proof.
  intros A B f l y; induction l as [| x l IH]; simpl; [discriminate |].
  destruct (f x) eqn:E; intros H.
  - inversion H; subst; eauto.
  - destruct (IH H) as [x' [Hin Hx]]; eauto.
Qed.

Lemma find_map_none : forall {A B} (f : A -> option B) l,
  find_map f l = None <-> (forall x, In x l -> f x = None).
Proof.
  intros A B f l; induction l as [| x l IH]; simpl; [tauto |].
  destruct (f x) eqn:E; split.
  - discriminate.
  - intros H; rewrite (H x (or_introl eq_refl)) in E; discriminate.
  - intros H y [<- | Hy]; [exact E | apply IH; assumption].
  - intros H; apply IH; intros y Hy; apply H; right; exact Hy.
Qed.


(** If every candidate fails or succeeds with a value satisfying [P], and
    one succeeds, the search succeeds with such a value. *)
Lemma find_map_some_prop : forall {A B} (f : A -> option B) (P : B -> Prop) l,
  (forall x, In x l -> f x = None \/ exists y, f x = Some y /\ P y) ->
  (exists x, In x l /\ f x <> None) ->
  exists y, find_map f l = Some y /\ P y.
Proof.
  intros A B f P l; induction l as [| x l IH]; simpl; intros H [x0 [Hin Hx0]]; [contradiction |].
  destruct (H x (or_introl eq_refl)) as [Ex | [y [Ey Py]]].
  - rewrite Ex. destruct Hin as [<- | Hin]; [contradiction |].
    apply IH; eauto.
  - rewrite Ey; eauto.
Qed.



(** ** The template matcher *)

Lemma pystr_eqb_refl : forall a, pystr_eqb a a = true.
Proof. intros a; unfold pystr_eqb; destruct (list_eq_dec Nat.eq_dec a a); congruence. Qed.

Lemma pystr_eqb_eq : forall a b, pystr_eqb a b = true -> a = b.
Proof. intros a b; unfold pystr_eqb; destruct (list_eq_dec Nat.eq_dec a b); congruence. Qed.

Lemma tokens_eqb_eq : forall a b, tokens_eqb a b = true <-> a = b.
Proof.
  intros a b; unfold tokens_eqb.
  destruct (list_eq_dec (list_eq_dec Nat.eq_dec) a b); split; congruence.
Qed.

Lemma match_wildcard_complete : forall pre post w,
  ~ In WILDCARD pre -> w <> [] ->
  match_ (pre ++ WILDCARD :: post) (pre ++ w ++ post) = Some [join_words w].
Proof.
  intros pre post w; induction pre as [| p pre IH]; intros Hpre Hw; cbn [app match_].
  - rewrite pystr_eqb_refl, length_app, Nat.add_sub.
    replace (1 <=? length w) with true
      by (symmetry; apply Nat.leb_le; destruct w; [congruence | simpl; lia]).
    rewrite skipn_app, skipn_all, Nat.sub_diag, firstn_app, firstn_all, Nat.sub_diag.
    simpl; rewrite (proj2 (tokens_eqb_eq post post) eq_refl), app_nil_r; reflexivity.
  - destruct (pystr_eqb p WILDCARD) eqn:E.
    + apply pystr_eqb_eq in E; subst; exfalso; apply Hpre; left; reflexivity.
    + rewrite pystr_eqb_refl. apply IH; [intro H; apply Hpre; right; exact H | exact Hw].
Qed.

Lemma match_wildcard_sound : forall pre post src r,
  ~ In WILDCARD pre ->
  match_ (pre ++ WILDCARD :: post) src = Some r ->
  exists w, w <> [] /\ src = pre ++ w ++ post /\ r = [join_words w].
Proof.
  intros pre post; induction pre as [| p pre IH]; intros src r Hpre H; cbn [app match_] in H.
  - rewrite pystr_eqb_refl in H.
    destruct ((1 <=? length src - length post) && tokens_eqb post (skipn (length src - length post) src)) eqn:E;
      [| discriminate].
    apply andb_true_iff in E; destruct E as [E1 E2].
    apply Nat.leb_le in E1; apply tokens_eqb_eq in E2.
    inversion H; subst r.
    exists (firstn (length src - length post) src); split; [| split; [| reflexivity]].
    + intro Hn. apply (f_equal (@length _)) in Hn. rewrite length_firstn in Hn; simpl in Hn; lia.
    + simpl. rewrite E2 at 2. symmetry; apply firstn_skipn.
  - destruct (pystr_eqb p WILDCARD) eqn:E.
    + apply pystr_eqb_eq in E; subst; exfalso; apply Hpre; left; reflexivity.
    + destruct src as [| s src]; [discriminate |].
      destruct (pystr_eqb p s) eqn:Eps; [| discriminate].
      apply pystr_eqb_eq in Eps; subst s.
      destruct (IH src r (fun Hin => Hpre (or_intror Hin)) H) as [w [Hw [-> Hr]]].
      exists w; simpl; auto.
Qed.

(** ** Dispatch *)

Lemma search_pa_list_with_none : forall pas src,
  (forall i T act, nth_error pas i = Some (T, act) -> match_ T src = None) ->
  search_pa_list_with pas src = ret [PyStr (str "I don't understand")].
Proof.
  intros pas src; induction pas as [| [T act] pas IH]; intros H; simpl; [reflexivity |].
  rewrite (H 0 T act eq_refl). apply IH.
  intros i T' act' Hi; apply (H (S i) T' act'); exact Hi.
Qed.

Lemma search_pa_list_with_first : forall pas src i T act mat,
  nth_error pas i = Some (T, act) -> match_ T src = Some mat ->
  (forall j T' act', j < i -> nth_error pas j = Some (T', act') -> match_ T' src = None) ->
  search_pa_list_with pas src =
    (let* answer := act mat in
     ret (match answer with [] => [PyStr (str "No answers")] | _ :: _ => answer end)).
Proof.
  intros pas src; induction pas as [| [T0 act0] pas IH]; intros i T act mat Hi Hm Hbefore.
  - destruct i; discriminate.
  - destruct i as [| i]; simpl in Hi |- *.
    + inversion Hi; subst. rewrite Hm; reflexivity.
    + rewrite (Hbefore 0 T0 act0 ltac:(lia) eq_refl).
      apply (IH i T act mat Hi Hm).
      intros j T' act' Hj Hj'; apply (Hbefore (S j) T' act'); [lia | exact Hj'].
Qed.

(** ** The regular-expression engine *)

Lemma m_at_caps : forall fl r t i cs k x,
  m_at fl r t i cs k = Some x ->
  exists j ext, k j (ext ++ cs) = Some x /\
    (forall n, mandatory n r = true -> exists sp, In (n, sp) ext).
Proof.
  intros fl r t; induction r as [| c | q | q | q | q | r1 IH1 r2 IH2 | n' r1 IH];
    intros i cs k x H; cbn [m_at] in H.
  - exists i, []; split; [exact H | discriminate].
  - destruct (nth_error t i); [| discriminate].
    destruct (lit_eq fl c n); [| discriminate].
    exists (S i), []; split; [exact H | discriminate].
  - destruct (nth_error t i); [| discriminate].
    destruct (cls_match fl q n); [| discriminate].
    exists (S i), []; split; [exact H | discriminate].
  - apply find_map_some in H; destruct H as [j [_ H]].
    exists (i + j), []; split; [exact H | discriminate].
  - apply find_map_some in H; destruct H as [j [_ H]].
    exists (i + j), []; split; [exact H | discriminate].
  - apply find_map_some in H; destruct H as [j [_ H]].
    exists (i + j), []; split; [exact H | discriminate].
  - destruct (IH1 _ _ _ _ H) as [j1 [ext1 [H1 M1]]].
    destruct (IH2 _ _ _ _ H1) as [j2 [ext2 [H2 M2]]].
    exists j2, (ext2 ++ ext1); split; [rewrite <- app_assoc; exact H2 |].
    intros n Hn; simpl in Hn; apply orb_true_iff in Hn; destruct Hn as [Hn | Hn].
    + destruct (M1 n Hn) as [sp Hsp]; exists sp; apply in_or_app; right; exact Hsp.
    + destruct (M2 n Hn) as [sp Hsp]; exists sp; apply in_or_app; left; exact Hsp.
  - destruct (IH _ _ _ _ H) as [j1 [ext1 [H1 M1]]].
    exists j1, ((n', (i, j1)) :: ext1); split; [exact H1 |].
    intros n Hn; simpl in Hn; apply orb_true_iff in Hn; destruct Hn as [Hn | Hn].
    + apply Nat.eqb_eq in Hn; subst; exists (i, j1); left; reflexivity.
    + destruct (M1 n Hn) as [sp Hsp]; exists sp; right; exact Hsp.
Qed.

Lemma lookup_cap_in : forall n sp cs, In (n, sp) cs -> exists sp', lookup_cap n cs = Some sp'.
Proof.
  intros n sp cs; induction cs as [| [n' sp'] cs IH]; simpl; [contradiction |].
  intros [H | H].
  - inversion H; subst; rewrite Nat.eqb_refl; eauto.
  - destruct (n =? n'); eauto.
Qed.

(** A group that every match of the pattern sets yields a string. *)
Lemma search_group_str : forall p t mt n,
  search p t = Some mt -> mandatory n (p_regex p) = true ->
  exists s, group mt n = PyStr s.
Proof.
  intros p t mt n H Hn; unfold search in H.
  apply find_map_some in H; destruct H as [i [_ H]].
  unfold match_at in H.
  destruct (m_at (p_flags p) (p_regex p) t i [] (fun j cs => Some (j, cs))) as [[j cs] |] eqn:E;
    [| discriminate].
  inversion H; subst mt; clear H.
  destruct (m_at_caps _ _ _ _ _ _ _ E) as [j' [ext [Hk Hm]]].
  rewrite app_nil_r in Hk; inversion Hk; subst.
  destruct (Hm n Hn) as [sp Hsp]; destruct (lookup_cap_in _ _ _ Hsp) as [[a b] Hl].
  unfold group; simpl; rewrite Hl; eauto.
Qed.

Lemma search_none_iff : forall p t,
  search p t = None <-> (forall i, i <= length t -> match_at p t i = None).
Proof.
  intros p t; unfold search; rewrite find_map_none; split.
  - intros H i Hi; apply H; apply in_seq; lia.
  - intros H i Hi; apply in_seq in Hi; apply H; lia.
Qed.


(** ** The birth pattern *)



Lemma lower_45 : forall x, (lower 45 =? lower x) = (x =? 45).
Proof.
  intros x; change (lower 45) with 45; unfold lower.
  destruct ((65 <=? x) && (x <=? 90)) eqn:E.
  - apply andb_true_iff in E; destruct E as [E _]; apply Nat.leb_le in E.
    destruct (45 =? x + 32) eqn:E1, (x =? 45) eqn:E2; try reflexivity;
      [apply Nat.eqb_eq in E1 | apply Nat.eqb_eq in E2]; lia.
  - apply Nat.eqb_sym.
Qed.

Ltac date_cases :=
  cbn [singles_ok date_singles repeat app single_ok date_shape forallb lit_eq search_flags
       flags_or DOTALL IGNORECASE ignorecase orb cls_match];
  rewrite ?lower_45;
  repeat match goal with |- context [is_digit ?x] => destruct (is_digit x) end;
  repeat match goal with |- context [?x =? 45] => destruct (x =? 45) end; reflexivity.

Lemma date_singles_ok : forall s, singles_ok search_flags date_singles s = date_shape s.
Proof.
  intros s; do 10 (destruct s as [| ? s]; [date_cases |]); date_cases.
Qed.

Lemma run_len_prefix : forall fl k s j,
  j < run_len fl k s -> exists x, nth_error s j = Some x /\ cls_match fl k x = true.
Proof.
  intros fl k s; induction s as [| y s IH]; intros j H; simpl in H; [lia |].
  destruct (cls_match fl k y) eqn:E; [| lia].
  destruct j as [| j]; simpl; [eauto |]. apply IH; lia.
Qed.



Lemma nth_error_skipn_ex : forall (t : pystr) m x,
  nth_error t m = Some x -> exists s, skipn m t = x :: s.
Proof.
  intros t; induction t as [| y t IH]; intros m x H; destruct m; simpl in *; try discriminate.
  - inversion H; eauto.
  - apply IH; exact H.
Qed.



Lemma in_skipn_in : forall {A} n (l : list A) x, In x (skipn n l) -> In x l.
Proof.
  intros A n l x H; rewrite <- (firstn_skipn n l); apply in_or_app; right; exact H.
Qed.








(** ** The infobox lookup *)

Lemma filter_nil_iff : forall {A} (f : A -> bool) l,
  filter f l = [] <-> (forall x, In x l -> f x = false).
Proof.
  intros A f l; induction l as [| x l IH]; simpl; [tauto |].
  destruct (f x) eqn:E; split.
  - discriminate.
  - intros H; rewrite (H x (or_introl eq_refl)) in E; discriminate.
  - intros H y [<- | Hy]; [exact E | apply IH; assumption].
  - intros H; apply IH; intros y Hy; apply H; right; exact Hy.
Qed.

(** ** The extraction pipeline *)

Section Pipeline.

Variable wikipedia_search : pystr -> res (list pystr).
Variable page_html : pystr -> res pystr.
Variable html_parser : pystr -> list node.

(** The trace of [extract] is a prefix of search, fetch, locate, clean,
    match. *)
Lemma extract_trace : forall pattern error_text grp country,
  exists r0 rest,
    [ESearch country; EFetch r0; ELocate; EClean; EMatch pattern] =
    fst (extract wikipedia_search page_html html_parser pattern error_text grp country) ++ rest.
Proof.
  intros pattern error_text grp country.
  unfold extract, get_page_html, get_first_infobox_text, clean_step, extract_field, get_match,
    bind, log, lift, raise, ret.
  destruct (wikipedia_search country) as [[| r0 rs] | e]; simpl;
    [exists [], [EFetch []; ELocate; EClean; EMatch pattern]; reflexivity | |
     exists [], [EFetch []; ELocate; EClean; EMatch pattern]; reflexivity].
  exists r0.
  destruct (page_html r0) as [html | e]; simpl; [| eexists; reflexivity].
  destruct (find_all (str "infobox") (html_parser html)); simpl; [eexists; reflexivity |].
  destruct (search (re_compile pattern (flags_or DOTALL IGNORECASE)) (clean_text (node_text n)));
    simpl; exists []; reflexivity.
Qed.

Lemma extract_no_results : forall pattern error_text grp country,
  wikipedia_search country = Ok [] ->
  extract wikipedia_search page_html html_parser pattern error_text grp country
  = ([ESearch country], Err (IndexError (str "list index out of range"))).
Proof.
  intros pattern error_text grp country H.
  unfold extract, get_page_html, bind, log, lift, raise; rewrite H; reflexivity.
Qed.

(** Each extractor raises or returns a string, when its pattern always
    sets the group it returns. *)
Lemma extract_result : forall pattern error_text grp country,
  mandatory grp pattern = true ->
  (exists e, snd (extract wikipedia_search page_html html_parser pattern error_text grp country) = Err e) \/
  (exists s, snd (extract wikipedia_search page_html html_parser pattern error_text grp country) = Ok (PyStr s)).
Proof.
  intros pattern error_text grp country Hm.
  unfold extract, get_page_html, get_first_infobox_text, clean_step, extract_field, get_match,
    bind, log, lift, raise, ret.
  destruct (wikipedia_search country) as [[| r0 rs] | e]; simpl; [left; eauto | | left; eauto].
  destruct (page_html r0) as [html | e]; simpl; [| left; eauto].
  destruct (find_all (str "infobox") (html_parser html)); simpl; [left; eauto |].
  destruct (search (re_compile pattern (flags_or DOTALL IGNORECASE)) (clean_text (node_text n)))
    as [mt |] eqn:E; simpl; [| left; eauto].
  right. destruct (search_group_str _ _ _ grp E Hm) as [s Hs]; rewrite Hs; eauto.
Qed.

Lemma handler_result : forall (get : pystr -> M pyval) mat,
  (forall c, (exists e, snd (get c) = Err e) \/ (exists s, snd (get c) = Ok (PyStr s))) ->
  (exists e, snd (handler get mat) = Err e) \/ (exists s, snd (handler get mat) = Ok [PyStr s]).
Proof.
  intros get mat H; destruct mat as [| m0 mat]; simpl; [left; eauto |].
  unfold bind; destruct (get m0) as [tr [x | e]] eqn:E; simpl.
  - destruct (H m0) as [[e He] | [s Hs]]; rewrite E in *; simpl in *; [discriminate |].
    inversion Hs; subst; right; eauto.
  - left; eauto.
Qed.

End Pipeline.

(** ** What the engine's matches cover *)

Lemma class_between_run : forall fl q t i j,
  j <= run_len fl q (skipn i t) -> in_class_between fl q t i (i + j).
Proof.
  intros fl q t i j Hj m Hm.
  destruct (run_len_prefix fl q (skipn i t) (m - i)) as [x [Hx Hc]]; [lia |].
  rewrite nth_error_skipn in Hx; replace (i + (m - i)) with m in Hx by lia; eauto.
Qed.

Lemma m_at_sound : forall fl r t i cs k x,
  m_at fl r t i cs k = Some x ->
  exists j ext, k j (ext ++ cs) = Some x /\ matches fl t r i j /\
    Forall (fun c => exists g, In (fst c, g) (groups r) /\
                          matches fl t g (fst (snd c)) (snd (snd c))) ext.
Proof.
  intros fl r t; induction r as [| c | q | q | q | q | r1 IH1 r2 IH2 | n' r1 IH];
    intros i cs k x H; cbn [m_at] in H.
  - exists i, []; split; [exact H | split; constructor].
  - destruct (nth_error t i) as [y |] eqn:Ey; [| discriminate].
    destruct (lit_eq fl c y) eqn:El; [| discriminate].
    exists (S i), []; split; [exact H | split; [econstructor; eauto | constructor]].
  - destruct (nth_error t i) as [y |] eqn:Ey; [| discriminate].
    destruct (cls_match fl q y) eqn:El; [| discriminate].
    exists (S i), []; split; [exact H | split; [econstructor; eauto | constructor]].
  - apply find_map_some in H; destruct H as [j [Hj H]].
    apply in_rev, in_seq in Hj.
    exists (i + j), []; split; [exact H | split; [| constructor]].
    constructor; [lia | apply class_between_run; lia].
  - apply find_map_some in H; destruct H as [j [Hj H]].
    apply in_seq in Hj.
    exists (i + j), []; split; [exact H | split; [| constructor]].
    constructor; [lia | apply class_between_run; lia].
  - apply find_map_some in H; destruct H as [j [Hj H]].
    apply in_rev, in_seq in Hj.
    exists (i + j), []; split; [exact H | split; [| constructor]].
    constructor; [lia | apply class_between_run; lia].
  - destruct (IH1 _ _ _ _ H) as [j1 [ext1 [H1 [M1 F1]]]].
    destruct (IH2 _ _ _ _ H1) as [j2 [ext2 [H2 [M2 F2]]]].
    exists j2, (ext2 ++ ext1); split; [rewrite <- app_assoc; exact H2 |].
    split; [econstructor; eauto |].
    apply Forall_app; split.
    + eapply Forall_impl; [| exact F2]; intros [n [a b]] [g [Hg Mg]].
      exists g; split; [simpl; apply in_or_app; right; exact Hg | exact Mg].
    + eapply Forall_impl; [| exact F1]; intros [n [a b]] [g [Hg Mg]].
      exists g; split; [simpl; apply in_or_app; left; exact Hg | exact Mg].
  - destruct (IH _ _ _ _ H) as [j1 [ext1 [H1 [M1 F1]]]].
    exists j1, ((n', (i, j1)) :: ext1); split; [exact H1 |].
    split; [constructor; exact M1 |].
    constructor.
    + exists r1; split; [left; reflexivity | exact M1].
    + eapply Forall_impl; [| exact F1]; intros [n [a b]] [g [Hg Mg]].
      exists g; split; [right; exact Hg | exact Mg].
Qed.

Lemma lookup_cap_some : forall n sp cs, lookup_cap n cs = Some sp -> In (n, sp) cs.
Proof.
  intros n sp cs; induction cs as [| [n' sp'] cs IH]; simpl; [discriminate |].
  destruct (n =? n') eqn:E; intros H.
  - apply Nat.eqb_eq in E; inversion H; subst; left; reflexivity.
  - right; apply IH, H.
Qed.

(** A group that [search] reports spans a match of the group's own
    expression, in the searched text. *)
Lemma search_group_span : forall p t mt n s,
  search p t = Some mt -> group mt n = PyStr s ->
  exists a b g, In (n, g) (groups (p_regex p)) /\ matches (p_flags p) t g a b /\
    s = firstn (b - a) (skipn a t).
Proof.
  intros p t mt n s H Hg; unfold search in H.
  apply find_map_some in H; destruct H as [i [_ H]].
  unfold match_at in H.
  destruct (m_at (p_flags p) (p_regex p) t i [] (fun j cs => Some (j, cs))) as [[j cs] |] eqn:E;
    [| discriminate].
  inversion H; subst; clear H.
  unfold group in Hg; simpl in Hg.
  destruct (lookup_cap n cs) as [[a b] |] eqn:El; [| discriminate].
  inversion Hg; subst; clear Hg.
  apply lookup_cap_some in El.
  destruct (m_at_sound _ _ _ _ _ _ _ E) as [j' [ext [Hk [_ F]]]].
  inversion Hk; subst; clear Hk.
  rewrite app_nil_r in El.
  rewrite Forall_forall in F; destruct (F _ El) as [g [Hg Mg]].
  exists a, b, g; eauto.
Qed.

Lemma singles_ok_app : forall fl rs1 rs2 s,
  singles_ok fl rs1 s = true -> singles_ok fl rs2 (skipn (length rs1) s) = true ->
  singles_ok fl (rs1 ++ rs2) s = true.
Proof.
  intros fl rs1; induction rs1 as [| r rs1 IH]; intros rs2 s H1 H2; [exact H2 |].
  destruct s as [| x s]; simpl in H1; [discriminate |].
  apply andb_true_iff in H1; destruct H1 as [Hx Hs].
  simpl; rewrite Hx; simpl; apply IH; [exact Hs | exact H2].
Qed.

Lemma flat_matches : forall fl t r rs a b,
  flat r = Some rs -> matches fl t r a b ->
  b = a + length rs /\ singles_ok fl rs (skipn a t) = true.
Proof.
  intros fl t r; induction r as [| c | q | q | q | q | r1 IH1 r2 IH2 | n r1 IH];
    intros rs a b Hf Hm; simpl in Hf; try discriminate.
  - inversion Hf; subst; inversion Hm; subst; split; [simpl; lia | reflexivity].
  - inversion Hf; subst; inversion Hm; subst.
    match goal with
    | Hn : nth_error t a = Some ?x, Hl : _ = true |- _ =>
        destruct (nth_error_skipn_ex t a x Hn) as [s Hs]; rewrite Hs;
        split; [simpl; lia | simpl; rewrite Hl; reflexivity]
    end.
  - inversion Hf; subst; inversion Hm; subst.
    match goal with
    | Hn : nth_error t a = Some ?x, Hl : _ = true |- _ =>
        destruct (nth_error_skipn_ex t a x Hn) as [s Hs]; rewrite Hs;
        split; [simpl; lia | simpl; rewrite Hl; reflexivity]
    end.
  - destruct (flat r1) as [l1 |] eqn:F1; [| discriminate].
    destruct (flat r2) as [l2 |] eqn:F2; [| discriminate].
    inversion Hf; subst; inversion Hm as [| | | | | | ? ? ? j ? M1 M2 |]; subst.
    destruct (IH1 l1 a j eq_refl M1) as [Ej S1].
    destruct (IH2 l2 j b eq_refl M2) as [Eb S2].
    split; [rewrite length_app; lia |].
    apply singles_ok_app; [exact S1 |].
    rewrite skipn_skipn; replace (length l1 + a) with j by lia; exact S2.
Qed.

Lemma singles_ok_firstn : forall fl rs s,
  singles_ok fl rs s = true ->
  singles_ok fl rs (firstn (length rs) s) = true /\ length (firstn (length rs) s) = length rs.
Proof.
  intros fl rs; induction rs as [| r rs IH]; intros s H; [split; reflexivity |].
  destruct s as [| x s]; simpl in H; [discriminate |].
  apply andb_true_iff in H; destruct H as [Hx Hs].
  destruct (IH s Hs) as [H1 H2]; simpl; rewrite Hx, H1, H2; split; reflexivity.
Qed.

Lemma class_between_group : forall fl q t a b,
  a <= b -> in_class_between fl q t a b ->
  length (firstn (b - a) (skipn a t)) = b - a /\
  forall x, In x (firstn (b - a) (skipn a t)) -> cls_match fl q x = true.
Proof.
  intros fl q t a b Hab H; split.
  - rewrite length_firstn, length_skipn.
    destruct (Nat.eq_dec a b) as [-> | Hne]; [lia |].
    destruct (H (b - 1)) as [x [Hx _]]; [lia |].
    assert (b - 1 < length t) by (apply nth_error_Some; congruence); lia.
  - intros x Hx; apply In_nth_error in Hx; destruct Hx as [n Hn].
    rewrite nth_error_firstn in Hn.
    destruct (n <? b - a) eqn:E; [| discriminate].
    apply Nat.ltb_lt in E; rewrite nth_error_skipn in Hn.
    destruct (H (a + n)) as [y [Hy Hc]]; [lia |]; congruence.
Qed.

Lemma firstn_skipn_split : forall (t : pystr) a k,
  t = firstn a t ++ firstn k (skipn a t) ++ skipn k (skipn a t).
Proof. intros; rewrite !firstn_skipn; reflexivity. Qed.

(** The group of a pattern whose only group is a run [[\w\s]+]. *)
Lemma word_group : forall pattern t mt s,
  groups pattern = [(1, RPlus CWordSpace)] ->
  search (re_compile pattern search_flags) t = Some mt -> group mt 1 = PyStr s ->
  s <> [] /\ (forall x, In x s -> is_word x || is_space x = true) /\
  exists pre post, t = pre ++ s ++ post.
Proof.
  intros pattern t mt s Hg Hs Hv.
  destruct (search_group_span _ _ _ _ _ Hs Hv) as [a [b [g [Hin [Hm ->]]]]].
  simpl in Hin; rewrite Hg in Hin; destruct Hin as [Hin | []]; inversion Hin; subst.
  inversion Hm as [| | | | | ? ? ? Hab Hcl | |]; subst.
  destruct (class_between_group _ _ _ _ _ (Nat.lt_le_incl _ _ Hab) Hcl) as [Hl Hc].
  split; [intros E; rewrite E in Hl; simpl in Hl; lia |].
  split; [exact Hc |].
  exists (firstn a t), (skipn (b - a) (skipn a t)); apply firstn_skipn_split.
Qed.

(** The group of a pattern whose only group is a fixed sequence of
    one-character expressions. *)
Lemma fixed_group : forall pattern g rs t mt s,
  groups pattern = [(1, g)] -> flat g = Some rs ->
  search (re_compile pattern search_flags) t = Some mt -> group mt 1 = PyStr s ->
  length s = length rs /\ singles_ok search_flags rs s = true /\
  exists pre post, t = pre ++ s ++ post.
Proof.
  intros pattern g rs t mt s Hg Hf Hs Hv.
  destruct (search_group_span _ _ _ _ _ Hs Hv) as [a [b [g' [Hin [Hm ->]]]]].
  simpl in Hin; rewrite Hg in Hin; destruct Hin as [Hin | []]; inversion Hin; subst.
  destruct (flat_matches _ _ _ _ _ _ Hf Hm) as [-> Hok].
  replace (a + length rs - a) with (length rs) by lia.
  destruct (singles_ok_firstn _ _ _ Hok) as [H1 H2].
  split; [exact H2 | split; [exact H1 |]].
  exists (firstn a t), (skipn (length rs) (skipn a t)); apply firstn_skipn_split.
Qed.

Ltac span_cases :=
  cbn [singles_ok repeat app single_ok year_span_shape forallb lit_eq search_flags
       flags_or DOTALL IGNORECASE ignorecase orb cls_match];
  rewrite ?lower_45;
  repeat match goal with |- context [is_digit ?x] => destruct (is_digit x) end;
  repeat match goal with |- context [?x =? 45] => destruct (x =? 45) end;
  first [reflexivity | discriminate | intros; discriminate | intros; reflexivity].

Lemma year_span_singles : forall s,
  length s = 9 ->
  singles_ok search_flags (repeat (RCls CDigit) 4 ++ [RLit 45] ++ repeat (RCls CDigit) 4) s = true ->
  year_span_shape s = true.
Proof.
  intros s Hl; do 9 (destruct s as [| ? s]; [discriminate Hl |]).
  destruct s; [| discriminate Hl]; span_cases.
Qed.

(** ** Template matching *)

Lemma literal_clash_sound : forall a b src,
  literal_clash a b = true -> match_ a src <> None -> match_ b src = None.
Proof.
  intros a; induction a as [| x a IH]; intros b src H Hm; [discriminate |].
  destruct b as [| y b]; [discriminate |].
  simpl in H.
  destruct (pystr_eqb x WILDCARD) eqn:Ex; [discriminate |].
  destruct (pystr_eqb y WILDCARD) eqn:Ey; [discriminate |].
  simpl in H, Hm; rewrite Ex in Hm; simpl; rewrite Ey.
  destruct src as [| s src]; [reflexivity |].
  destruct (pystr_eqb x s) eqn:Exs; [| contradiction].
  apply pystr_eqb_eq in Exs; subst s.
  destruct (pystr_eqb x y) eqn:Exy.
  - apply pystr_eqb_eq in Exy; subst y; rewrite pystr_eqb_refl; eapply IH; eauto.
  - destruct (pystr_eqb y x) eqn:Eyx; [| reflexivity].
    apply pystr_eqb_eq in Eyx; subst y; rewrite pystr_eqb_refl in Exy; discriminate.
Qed.

(** ** Cleaning *)

Lemma squeeze_length : forall c p s, length (squeeze c p s) <= length s.
Proof.
  intros c p s; revert p; induction s as [| x s IH]; intros p; simpl; [lia |].
  pose proof (IH true); pose proof (IH false).
  destruct (x =? c), p; simpl; lia.
Qed.

(** ** Query normalisation *)

Lemma split_go_tokens : forall s cur w,
  (forall x, In x cur -> is_space x = false) -> In w (split_go cur s) ->
  w <> [] /\ forall x, In x w -> is_space x = false /\ (In x cur \/ In x s).
Proof.
  intros s; induction s as [| y s IH]; intros cur w Hc H; simpl in H.
  - destruct cur as [| c cur]; [contradiction |].
    destruct H as [<- | []].
    split; [intros E; apply (f_equal (@length nat)) in E; rewrite length_rev in E;
            simpl in E; discriminate |].
    intros x Hx; apply in_rev in Hx; split; [apply Hc, Hx | left; exact Hx].
  - destruct (is_space y) eqn:Ey.
    + assert (Hnil : forall x, In x (@nil nat) -> is_space x = false) by (intros ? []).
      destruct cur as [| c cur].
      * destruct (IH [] w Hnil H) as [Hw Hx]; split; [exact Hw |].
        intros x Hin; destruct (Hx x Hin) as [Hs [[] | Hs']]; split; [exact Hs | right; right; exact Hs'].
      * destruct H as [<- | H].
        -- split; [intros E; apply (f_equal (@length nat)) in E; rewrite length_rev in E;
                   simpl in E; discriminate |].
           intros x Hx; apply in_rev in Hx; split; [apply Hc, Hx | left; exact Hx].
        -- destruct (IH [] w Hnil H) as [Hw Hx]; split; [exact Hw |].
           intros x Hin; destruct (Hx x Hin) as [Hs [[] | Hs']];
             split; [exact Hs | right; right; exact Hs'].
    + assert (Hc' : forall x, In x (y :: cur) -> is_space x = false)
        by (intros x [<- | Hx]; [exact Ey | apply Hc, Hx]).
      destruct (IH (y :: cur) w Hc' H) as [Hw Hx]; split; [exact Hw |].
      intros x Hin; destruct (Hx x Hin) as [Hs [[<- | Hs'] | Hs']]; split; try exact Hs.
      * right; left; reflexivity.
      * left; exact Hs'.
      * right; right; exact Hs'.
Qed.

Lemma query_tokens_chars : forall line w x,
  In w (query_tokens line) -> In x w ->
  w <> [] /\ is_space x = false /\ x <> QMARK /\ ~ (65 <= x <= 90).
Proof.
  intros line w x Hw Hx; unfold query_tokens, py_split in Hw.
  destruct (split_go_tokens _ [] w (fun x (H : In x []) => match H with end) Hw) as [Hne Hc].
  destruct (Hc x Hx) as [Hs [[] | Hin]].
  split; [exact Hne | split; [exact Hs |]].
  apply in_map_iff in Hin; destruct Hin as [y [<- Hy]].
  unfold remove_qmark in Hy; apply filter_In in Hy; destruct Hy as [_ Hq].
  apply negb_true_iff, Nat.eqb_neq in Hq.
  unfold lower, QMARK in *; destruct ((65 <=? y) && (y <=? 90)) eqn:E.
  - apply andb_true_iff in E; destruct E as [E1 E2];
      apply Nat.leb_le in E1; apply Nat.leb_le in E2; lia.
  - apply andb_false_iff in E; destruct E as [E | E]; apply Nat.leb_gt in E; lia.
Qed.

Lemma split_go_word : forall w cur rest,
  (forall x, In x w -> is_space x = false) ->
  split_go cur (w ++ rest) = split_go (rev w ++ cur) rest.
Proof.
  intros w; induction w as [| x w IH]; intros cur rest H; [reflexivity |].
  simpl; rewrite (H x (or_introl eq_refl)).
  rewrite IH by (intros y Hy; apply H; right; exact Hy).
  rewrite <- app_assoc; reflexivity.
Qed.

Lemma split_join : forall ws,
  (forall w, In w ws -> w <> [] /\ forall x, In x w -> is_space x = false) ->
  py_split (join_words ws) = ws.
Proof.
  unfold py_split; intros ws; induction ws as [| w ws IH]; intros H; [reflexivity |].
  destruct (H w (or_introl eq_refl)) as [Hw Hx].
  assert (Hr : exists c r, rev w = c :: r).
  { destruct (rev w) as [| c r] eqn:E; [| eauto].
    apply (f_equal (@rev nat)) in E; rewrite rev_involutive in E; contradiction. }
  destruct Hr as [c [r Hr]].
  destruct ws as [| w' ws].
  - change (join_words [w]) with w; rewrite <- (app_nil_r w) at 1.
    rewrite split_go_word by exact Hx.
    rewrite app_nil_r, Hr; cbn [split_go]; rewrite <- Hr, rev_involutive; reflexivity.
  - change (join_words (w :: w' :: ws)) with (w ++ [SPACE] ++ join_words (w' :: ws)).
    assert (Hsp : is_space SPACE = true) by reflexivity.
    rewrite split_go_word by exact Hx; rewrite app_nil_r, Hr; cbn [split_go app]; rewrite Hsp.
    rewrite <- Hr, rev_involutive, IH; [reflexivity |].
    intros v Hv; apply H; right; exact Hv.
Qed.

Lemma join_words_in : forall ws x,
  In x (join_words ws) -> x = SPACE \/ exists w, In w ws /\ In x w.
Proof.
  intros ws; induction ws as [| w ws IH]; intros x H; [contradiction |].
  destruct ws as [| w' ws].
  - right; exists w; split; [left; reflexivity | exact H].
  - change (join_words (w :: w' :: ws)) with (w ++ [SPACE] ++ join_words (w' :: ws)) in H.
    apply in_app_or in H; destruct H as [H | [H | H]].
    + right; exists w; split; [left; reflexivity | exact H].
    + left; symmetry; exact H.
    + destruct (IH x H) as [E | [v [Hv Hx]]]; [left; exact E |].
      right; exists v; split; [right; exact Hv | exact Hx].
Qed.

Lemma filter_all_true : forall {A} (f : A -> bool) l,
  (forall x, In x l -> f x = true) -> filter f l = l.
Proof.
  intros A f l; induction l as [| x l IH]; intros H; simpl; [reflexivity |].
  rewrite (H x (or_introl eq_refl)), IH; [reflexivity |].
  intros y Hy; apply H; right; exact Hy.
Qed.

Lemma map_lower_id : forall s, (forall x, In x s -> ~ (65 <= x <= 90)) -> map lower s = s.
Proof.
  intros s; induction s as [| x s IH]; intros H; simpl; [reflexivity |].
  rewrite IH by (intros y Hy; apply H; right; exact Hy).
  unfold lower; destruct ((65 <=? x) && (x <=? 90)) eqn:E; [| reflexivity].
  apply andb_true_iff in E; destruct E as [E1 E2];
    apply Nat.leb_le in E1; apply Nat.leb_le in E2.
  exfalso; apply (H x (or_introl eq_refl)); lia.
Qed.

(** ** [query_loop] *)

Section Loop.

Variable wikipedia_search : pystr -> res (list pystr).
Variable page_html : pystr -> res pystr.
Variable html_parser : pystr -> list node.

Lemma body_interrupt : forall pre post,
  query_loop_body wikipedia_search page_html html_parser (pre ++ Interrupt :: post) =
  query_loop_body wikipedia_search page_html html_parser pre.
Proof.
  intros pre post; induction pre as [| [l |] pre IH]; simpl; try reflexivity.
  rewrite IH; reflexivity.
Qed.

Lemma body_error : forall pre l e,
  (forall ev, In ev pre -> exists l' a, ev = Line l' /\
     snd (search_pa_list wikipedia_search page_html html_parser (query_tokens l')) = Ok a) ->
  snd (search_pa_list wikipedia_search page_html html_parser (query_tokens l)) = Err e ->
  exists o, forall post,
    query_loop_body wikipedia_search page_html html_parser (pre ++ Line l :: post) =
    (o ++ [prompt], Raised e).
Proof.
  intros pre l e Hpre Hl; induction pre as [| ev pre IH].
  - exists [[NEWLINE]]; intros post; simpl; rewrite Hl; reflexivity.
  - destruct (Hpre ev (or_introl eq_refl)) as [l' [a [-> Ha]]].
    destruct IH as [o Ho]; [intros ev' Hev'; apply Hpre; right; exact Hev' |].
    exists ([[NEWLINE]; prompt] ++ map print_val a ++ o); intros post.
    simpl; rewrite Ha, Ho; simpl; rewrite <- !app_assoc; reflexivity.
Qed.

Lemma body_finished : forall inp,
  (forall l, In (Line l) inp -> exists a,
     snd (search_pa_list wikipedia_search page_html html_parser (query_tokens l)) = Ok a) ->
  exists o, query_loop_body wikipedia_search page_html html_parser inp = (o ++ [prompt], Finished).
Proof.
  intros inp H; induction inp as [| [l |] inp IH].
  - exists [[NEWLINE]]; reflexivity.
  - destruct (H l (or_introl eq_refl)) as [a Ha].
    destruct IH as [o Ho]; [intros l' Hl'; apply H; right; exact Hl' |].
    exists ([[NEWLINE]; prompt] ++ map print_val a ++ o).
    simpl; rewrite Ha, Ho; rewrite <- !app_assoc; reflexivity.
  - exists [[NEWLINE]]; reflexivity.
Qed.

End Loop.

(** ** The extraction pipeline, step by step *)

Section Steps.

Variable wikipedia_search : pystr -> res (list pystr).
Variable page_html : pystr -> res pystr.
Variable html_parser : pystr -> list node.

Lemma extract_split : forall pattern error_text grp country,
  extract wikipedia_search page_html html_parser pattern error_text grp country =
  let (tr, r) := cleaned_infobox wikipedia_search page_html html_parser country in
  match r with
  | Err e => (tr, Err e)
  | Ok t => (tr ++ fst (extract_field pattern error_text grp t),
             snd (extract_field pattern error_text grp t))
  end.
Proof.
  intros pattern error_text grp country.
  unfold extract, cleaned_infobox, get_page_html, get_first_infobox_text, clean_step,
    bind, log, lift, raise, ret.
  destruct (wikipedia_search country) as [[| r0 rs] | e]; simpl; try reflexivity.
  destruct (page_html r0) as [html | e]; simpl; [| reflexivity].
  destruct (find_all (str "infobox") (html_parser html)); simpl; [reflexivity |].
  unfold extract_field, get_match, bind, log, raise, ret; simpl.
  destruct (search _ _); reflexivity.
Qed.

Lemma extract_ok : forall pattern error_text grp country v,
  snd (extract wikipedia_search page_html html_parser pattern error_text grp country) = Ok v ->
  exists t mt, snd (cleaned_infobox wikipedia_search page_html html_parser country) = Ok t /\
    search (re_compile pattern search_flags) t = Some mt /\ v = group mt grp.
Proof.
  intros pattern error_text grp country v H.
  rewrite extract_split in H.
  destruct (cleaned_infobox wikipedia_search page_html html_parser country) as [tr [t | e]];
    simpl in H; [| discriminate].
  unfold extract_field, get_match, bind, log, raise, ret in H; simpl in H.
  destruct (search (re_compile pattern (flags_or DOTALL IGNORECASE)) t) as [mt |] eqn:E;
    simpl in H; [| discriminate].
  inversion H; subst; exists t, mt; auto.
Qed.

(** The answer of an extractor whose only group is a [[\w\s]+] run. *)
Lemma word_field_answer : forall pattern error_text country v,
  groups pattern = [(1, RPlus CWordSpace)] -> mandatory 1 pattern = true ->
  snd (extract wikipedia_search page_html html_parser pattern error_text 1 country) = Ok v ->
  exists s t pre post, v = PyStr s /\ s <> [] /\
    (forall x, In x s -> is_word x || is_space x = true) /\
    snd (cleaned_infobox wikipedia_search page_html html_parser country) = Ok t /\
    t = pre ++ s ++ post.
Proof.
  intros pattern error_text country v Hg Hm H.
  destruct (extract_ok _ _ _ _ _ H) as [t [mt [Ht [Hs ->]]]].
  destruct (search_group_str _ _ _ 1 Hs Hm) as [s Hv].
  destruct (word_group _ _ _ _ Hg Hs Hv) as [Hne [Hc [pre [post Ht']]]].
  exists s, t, pre, post; auto.
Qed.

(** The answer of an extractor whose only group is a fixed sequence of
    one-character expressions. *)
Lemma fixed_field_answer : forall pattern error_text g rs country v,
  groups pattern = [(1, g)] -> flat g = Some rs -> mandatory 1 pattern = true ->
  snd (extract wikipedia_search page_html html_parser pattern error_text 1 country) = Ok v ->
  exists s t pre post, v = PyStr s /\ length s = length rs /\
    singles_ok search_flags rs s = true /\
    snd (cleaned_infobox wikipedia_search page_html html_parser country) = Ok t /\
    t = pre ++ s ++ post.
Proof.
  intros pattern error_text g rs country v Hg Hf Hm H.
  destruct (extract_ok _ _ _ _ _ H) as [t [mt [Ht [Hs ->]]]].
  destruct (search_group_str _ _ _ 1 Hs Hm) as [s Hv].
  destruct (fixed_group _ _ _ _ _ _ Hg Hf Hs Hv) as [Hl [Hok [pre [post Ht']]]].
  exists s, t, pre, post; auto.
Qed.

End Steps.

(* ================================================================= *)
(** * Claims *)

(** C1 (as amended): a template with one wildcard, [pre ++ % :: post]
    with no wildcard among the literal tokens [pre] before it, matches an
    input exactly when the input is [pre ++ w ++ post] with [w] non-empty;
    the result then holds the tokens [w] consumed by the wildcard (as one
    entry, joined by spaces), and otherwise it is [None] (a literal
    mismatch, or an input too short for the template).  The wildcard need
    not be the final token: the birth template has "born" after it. *)
Theorem match_wildcard_spec : forall pre post,
  ~ In WILDCARD pre ->
  (forall w, w <> [] ->
     match_ (pre ++ WILDCARD :: post) (pre ++ w ++ post) = Some [join_words w]) /\
  (forall src r, match_ (pre ++ WILDCARD :: post) src = Some r ->
     exists w, w <> [] /\ src = pre ++ w ++ post /\ r = [join_words w]).
Proof.
  intros pre post Hpre; split.
  - intros w Hw; apply match_wildcard_complete; assumption.
  - intros src r H; eapply match_wildcard_sound; eassumption.
Qed.

Lemma match_wildcard_spec_witness :
  ~ In WILDCARD (toks ["when"; "was"; "the"; "president"; "of"])%string /\
  match_ ((toks ["when"; "was"; "the"; "president"; "of"])%string ++ WILDCARD :: [str "born"])
         ((toks ["when"; "was"; "the"; "president"; "of"])%string ++
          [str "united"; str "states"] ++ [str "born"])
  = Some [join_words [str "united"; str "states"]].
Proof.
  assert (H : ~ In WILDCARD (toks ["when"; "was"; "the"; "president"; "of"])%string)
    by (simpl; intuition discriminate).
  split; [exact H |].
  exact (proj1 (match_wildcard_spec _ [str "born"] H) [str "united"; str "states"]
           ltac:(discriminate)).
Defined.

(** C1 fails as stated: the wildcard of the birth template is not its
    final token, and on "when was the president of france born" it
    captures "france", not all the tokens after "of". *)
Lemma match_birth_template_not_final :
  last (nth 3 pa_templates []) [] = str "born" /\
  match_ (nth 3 pa_templates [])
         (toks ["when"; "was"; "the"; "president"; "of"; "france"; "born"])%string
  = Some [str "france"].
Proof. split; reflexivity. Qed.

(** C2: [search_pa_list] runs over the six templates of [pa_list] in
    declaration order: when no template matches it returns
    [["I don't understand"]]; otherwise it runs the handler paired with
    the first template that matches, on the match result. *)
Theorem search_pa_list_dispatch : forall ws ph hp src,
  map fst (pa_list ws ph hp) = pa_templates /\
  length (pa_list ws ph hp) = 6 /\
  ((forall i T act, nth_error (pa_list ws ph hp) i = Some (T, act) -> match_ T src = None) ->
   search_pa_list ws ph hp src = ret [PyStr (str "I don't understand")]) /\
  (forall i T act mat,
     nth_error (pa_list ws ph hp) i = Some (T, act) -> match_ T src = Some mat ->
     (forall j T' act', j < i -> nth_error (pa_list ws ph hp) j = Some (T', act') ->
                        match_ T' src = None) ->
     search_pa_list ws ph hp src =
       (let* answer := act mat in
        ret (match answer with [] => [PyStr (str "No answers")] | _ :: _ => answer end))).
Proof.
  intros ws ph hp src; split; [reflexivity | split; [reflexivity | split]].
  - apply search_pa_list_with_none.
  - intros i T act mat Hi Hm Hb; exact (search_pa_list_with_first _ _ i T act mat Hi Hm Hb).
Qed.

Lemma search_pa_list_dispatch_witness :
  search_pa_list (fun _ => Ok []) (fun _ => Ok []) (fun _ => [])
    (toks ["who"; "is"; "the"; "president"; "of"; "france"])%string =
  (let* answer := president_name (fun _ => Ok []) (fun _ => Ok []) (fun _ => []) [str "france"] in
   ret (match answer with [] => [PyStr (str "No answers")] | _ :: _ => answer end)).
Proof.
  exact (proj2 (proj2 (proj2 (search_pa_list_dispatch (fun _ => Ok []) (fun _ => Ok []) (fun _ => [])
           (toks ["who"; "is"; "the"; "president"; "of"; "france"])%string)))
           0 _ _ [str "france"] eq_refl eq_refl ltac:(intros; lia)).
Defined.

(** C3: [clean_text] replaces each character outside [string.printable]
    by a space, then collapses every run of spaces to one space, then every
    run of newlines to one newline (it agrees with [clean_text_spec], which
    is written over the maximal runs of the text).  On ["a    b\n\n\nc"] with
    a non-ASCII character (U+00E9) inside the run of spaces it yields
    ["a b\nc"]; with the character appended, it becomes a single trailing
    space. *)
Theorem clean_text_refines_spec :
  (forall s, clean_text s = clean_text_spec s) /\
  clean_text (str "a" ++ [233] ++ str "    b" ++ [10; 10; 10] ++ str "c")
    = str "a b" ++ [10] ++ str "c" /\
  clean_text (str "a    b" ++ [10; 10; 10] ++ str "c" ++ [233])
    = str "a b" ++ [10] ++ str "c ".
Proof.
  split; [| split; reflexivity].
  intros s; unfold clean_text, clean_text_spec.
  rewrite !re_sub_run_spec; reflexivity.
Qed.

(** C4: the output of [clean_text] is ASCII only, and has no two
    consecutive spaces and no two consecutive newlines. *)
Theorem clean_text_invariant : forall s,
  (forall x, In x (clean_text s) -> x < 128) /\
  ~ (exists u v, clean_text s = u ++ SPACE :: SPACE :: v) /\
  ~ (exists u v, clean_text s = u ++ NEWLINE :: NEWLINE :: v).
Proof.
  intros s; split; [| split].
  - intros x H; apply printable_ascii; eapply clean_text_printable; exact H.
  - intros [u [v E]]. apply (no_rep_not_adjacent SPACE u v false).
    rewrite <- E; apply clean_text_no_rep_space.
  - intros [u [v E]]. apply (no_rep_not_adjacent NEWLINE u v false).
    rewrite <- E; apply clean_text_no_rep_newline.
Qed.

(** C10: [clean_text] is idempotent. *)
Theorem clean_text_idempotent : forall s, clean_text (clean_text s) = clean_text s.
Proof.
  intros s.
  unfold clean_text at 1.
  rewrite map_scrub_id by (apply clean_text_printable).
  unfold re_sub_run.
  rewrite (squeeze_no_rep_id SPACE (clean_text s) false (clean_text_no_rep_space s)).
  apply squeeze_no_rep_id, clean_text_no_rep_newline.
Qed.

Lemma clean_text_invariant_witness :
  ~ (exists u v, clean_text (str "a  b") = u ++ SPACE :: SPACE :: v).
Proof. exact (proj1 (proj2 (clean_text_invariant (str "a  b")))). Defined.

(** C5: [get_match] compiles the pattern with [re.DOTALL | re.IGNORECASE];
    it raises [AttributeError(error_text)], and no other error, exactly
    when the pattern matches at no position of the text, and otherwise
    returns the match object [search] finds. *)
Theorem get_match_spec : forall text pattern error_text,
  p_flags (re_compile pattern (flags_or DOTALL IGNORECASE))
    = {| dotall := true; ignorecase := true |} /\
  (snd (get_match text pattern error_text) = Err (AttributeError error_text) <->
   (forall i, i <= length text ->
      match_at (re_compile pattern (flags_or DOTALL IGNORECASE)) text i = None)) /\
  (forall e, snd (get_match text pattern error_text) = Err e -> e = AttributeError error_text) /\
  (forall mt, snd (get_match text pattern error_text) = Ok mt <->
              search (re_compile pattern (flags_or DOTALL IGNORECASE)) text = Some mt).
Proof.
  intros text pattern error_text; split; [reflexivity |].
  rewrite <- search_none_iff.
  unfold get_match, bind, log, raise, ret.
  destruct (search (re_compile pattern (flags_or DOTALL IGNORECASE)) text) as [mt' |]; simpl.
  - split; [split; [discriminate | discriminate] |].
    split; [discriminate | intros mt; split; congruence].
  - split; [tauto |]. split; [congruence | intros mt; split; discriminate].
Qed.

Lemma get_match_spec_witness :
  snd (get_match (str "x") birth_pattern birth_error) = Err (AttributeError birth_error).
Proof.
  apply (proj2 (proj1 (proj2 (get_match_spec (str "x") birth_pattern birth_error)))).
  intros i Hi; simpl in Hi; destruct i as [| [| i]]; [reflexivity | reflexivity | lia].
Defined.




(** C7: [get_first_infobox_text] raises [LookupError("Page has no
    infobox")], and no other error, exactly when no element of the
    parsed page has the class "infobox"; otherwise it returns the text
    of the first such element in document order. *)
Theorem get_first_infobox_text_spec : forall hp html,
  (snd (get_first_infobox_text hp html) = Err (LookupError (str "Page has no infobox")) <->
   (forall e, In e (flat_map descendants (hp html)) -> has_class (str "infobox") e = false)) /\
  (forall err, snd (get_first_infobox_text hp html) = Err err ->
               err = LookupError (str "Page has no infobox")) /\
  (forall pre e post,
     flat_map descendants (hp html) = pre ++ e :: post ->
     has_class (str "infobox") e = true ->
     (forall e', In e' pre -> has_class (str "infobox") e' = false) ->
     snd (get_first_infobox_text hp html) = Ok (node_text e)).
Proof.
  intros hp html.
  unfold get_first_infobox_text, find_all, bind, log, raise, ret.
  split; [| split].
  - rewrite <- filter_nil_iff.
    destruct (filter (has_class (str "infobox")) (flat_map descendants (hp html))); simpl;
      split; congruence.
  - destruct (filter (has_class (str "infobox")) (flat_map descendants (hp html))); simpl;
      congruence.
  - intros pre e post Hd He Hpre.
    rewrite Hd, filter_app, (proj2 (filter_nil_iff _ pre) Hpre); simpl; rewrite He; reflexivity.
Qed.

Lemma get_first_infobox_text_spec_witness :
  snd (get_first_infobox_text
         (fun _ => [NElem (str "div") [] [NElem (str "table") [str "infobox"] [NText (str "x")]]])
         (str "<html>"))
  = Ok (node_text (NElem (str "table") [str "infobox"] [NText (str "x")])).
Proof.
  apply (proj2 (proj2 (get_first_infobox_text_spec
    (fun _ => [NElem (str "div") [] [NElem (str "table") [str "infobox"] [NText (str "x")]]])
    (str "<html>"))) [NElem (str "div") [] [NElem (str "table") [str "infobox"] [NText (str "x")]]]
    _ []).
  - reflexivity.
  - reflexivity.
  - intros e' [<- | []]; reflexivity.
Defined.

(** C8: when the search for the subject returns no result, each of the
    six extractors fails with [IndexError] on [results[0]], having made
    the search and nothing else (no fetch, no infobox lookup, no
    cleaning, no regular expression); in every case an extractor's
    steps are a prefix of: search, fetch, locate the infobox, clean,
    match. *)
Theorem extractors_fail_fast : forall ws ph hp country,
  (ws country = Ok [] ->
   forall get, In get (extractors ws ph hp) ->
   get country = ([ESearch country], Err (IndexError (str "list index out of range")))) /\
  (forall get, In get (extractors ws ph hp) ->
   exists pattern r0 rest,
     [ESearch country; EFetch r0; ELocate; EClean; EMatch pattern] = fst (get country) ++ rest).
Proof.
  intros ws ph hp country; split.
  - intros Hs get Hin; simpl in Hin.
    destruct Hin as [<- | [<- | [<- | [<- | [<- | [<- | []]]]]]];
      exact (extract_no_results ws ph hp _ _ _ _ Hs).
  - intros get Hin; simpl in Hin.
    destruct Hin as [<- | [<- | [<- | [<- | [<- | [<- | []]]]]]];
      eexists; exact (extract_trace ws ph hp _ _ _ _).
Qed.

Lemma extractors_fail_fast_witness :
  get_president_birth (fun _ => Ok []) (fun _ => Ok []) (fun _ => []) (str "france")
  = ([ESearch (str "france")], Err (IndexError (str "list index out of range"))).
Proof.
  apply (proj1 (extractors_fail_fast (fun _ => Ok []) (fun _ => Ok []) (fun _ => [])
                  (str "france")) eq_refl).
  simpl; intuition.
Defined.

(** C9: when the first matching template's handler returns an empty
    list, [search_pa_list] answers [["No answers"]]; this never happens
    with [pa_list], whose handlers each raise or return a list of exactly
    one string. *)
Theorem no_answers_branch :
  (forall pas src i T act mat tr,
     nth_error pas i = Some (T, act) -> match_ T src = Some mat ->
     (forall j T' act', j < i -> nth_error pas j = Some (T', act') -> match_ T' src = None) ->
     act mat = (tr, Ok []) ->
     search_pa_list_with pas src = (tr, Ok [PyStr (str "No answers")])) /\
  (forall ws ph hp T act mat,
     In (T, act) (pa_list ws ph hp) ->
     (exists e, snd (act mat) = Err e) \/ (exists s, snd (act mat) = Ok [PyStr s])).
Proof.
  split.
  - intros pas src i T act mat tr Hi Hm Hb Ha.
    rewrite (search_pa_list_with_first pas src i T act mat Hi Hm Hb), Ha.
    unfold bind, ret; simpl; rewrite app_nil_r; reflexivity.
  - intros ws ph hp T act mat Hin; simpl in Hin.
    destruct Hin as [H | [H | [H | [H | [H | [H | []]]]]]]; inversion H; subst;
      apply handler_result; intros c; apply extract_result; reflexivity.
Qed.

Lemma no_answers_branch_witness :
  search_pa_list_with [(nth 0 pa_templates [], fun _ => ([], Ok []))]
    (toks ["who"; "is"; "the"; "president"; "of"; "france"])%string
  = ([], Ok [PyStr (str "No answers")]).
Proof.
  apply (proj1 no_answers_branch) with (i := 0) (T := nth 0 pa_templates [])
    (act := fun _ => ([], Ok [])) (mat := [str "france"]).
  - reflexivity.
  - reflexivity.
  - intros; lia.
  - reflexivity.
Defined.

(* ================================================================= *)
(** * Further properties of the code *)

(** X1: when [get_president_term] returns, its answer is a string of the
    form [YYYY-YYYY] that occurs in the cleaned infobox text. *)
Theorem get_president_term_answer : forall ws ph hp country v,
  snd (get_president_term ws ph hp country) = Ok v ->
  exists s t pre post, v = PyStr s /\ year_span_shape s = true /\
    snd (cleaned_infobox ws ph hp country) = Ok t /\ t = pre ++ s ++ post.
Proof.
  intros ws ph hp country v H.
  destruct (fixed_field_answer ws ph hp term_pattern term_error _ _ country v
              eq_refl eq_refl eq_refl H) as [s [t [pre [post [-> [Hl [Hok [Ht Hs]]]]]]]].
  exists s, t, pre, post; split; [reflexivity |].
  split; [apply year_span_singles; [exact Hl | exact Hok] | split; assumption].
Qed.

Lemma get_president_term_answer_witness :
  exists s t pre post, PyStr (str "2017-2027") = PyStr s /\ year_span_shape s = true /\
    snd (cleaned_infobox sample_search sample_page sample_parser (str "france")) = Ok t /\
    t = pre ++ s ++ post.
Proof.
  apply (get_president_term_answer sample_search sample_page sample_parser (str "france")).
  vm_compute; reflexivity.
Defined.

(** X2: when [get_president_birth] returns, its answer is a ten-character
    date [YYYY-MM-DD] that occurs in the cleaned infobox text. *)
Theorem get_president_birth_answer : forall ws ph hp country v,
  snd (get_president_birth ws ph hp country) = Ok v ->
  exists s t pre post, v = PyStr s /\ length s = 10 /\ date_shape s = true /\
    snd (cleaned_infobox ws ph hp country) = Ok t /\ t = pre ++ s ++ post.
Proof.
  intros ws ph hp country v H.
  destruct (fixed_field_answer ws ph hp birth_pattern birth_error _ _ country v
              eq_refl eq_refl eq_refl H) as [s [t [pre [post [-> [Hl [Hok [Ht Hs]]]]]]]].
  exists s, t, pre, post; split; [reflexivity |].
  split; [exact Hl |].
  split; [rewrite <- date_singles_ok; exact Hok | split; assumption].
Qed.

Lemma get_president_birth_answer_witness :
  exists s t pre post, PyStr (str "1977-12-21") = PyStr s /\ length s = 10 /\
    date_shape s = true /\
    snd (cleaned_infobox sample_search sample_page sample_parser (str "france")) = Ok t /\
    t = pre ++ s ++ post.
Proof.
  apply (get_president_birth_answer sample_search sample_page sample_parser (str "france")).
  vm_compute; reflexivity.
Defined.

(** X3: when [get_president_name] returns, its answer is a non-empty run
    of word characters and whitespace ([[\w\s]+]) that occurs in the
    cleaned infobox text. *)
Theorem get_president_name_answer : forall ws ph hp country v,
  snd (get_president_name ws ph hp country) = Ok v ->
  exists s t pre post, v = PyStr s /\ s <> [] /\
    (forall x, In x s -> is_word x || is_space x = true) /\
    snd (cleaned_infobox ws ph hp country) = Ok t /\ t = pre ++ s ++ post.
Proof.
  intros ws ph hp country v H.
  exact (word_field_answer ws ph hp name_pattern name_error country v eq_refl eq_refl H).
Qed.

Lemma get_president_name_answer_witness :
  exists s t pre post, PyStr (str " Emmanuel Macron") = PyStr s /\ s <> [] /\
    (forall x, In x s -> is_word x || is_space x = true) /\
    snd (cleaned_infobox sample_search sample_page sample_parser (str "france")) = Ok t /\
    t = pre ++ s ++ post.
Proof.
  apply (get_president_name_answer sample_search sample_page sample_parser (str "france")).
  vm_compute; reflexivity.
Defined.

(** X4: when [get_president_party] returns, its answer is a non-empty run
    of word characters and whitespace that occurs in the cleaned infobox
    text. *)
Theorem get_president_party_answer : forall ws ph hp country v,
  snd (get_president_party ws ph hp country) = Ok v ->
  exists s t pre post, v = PyStr s /\ s <> [] /\
    (forall x, In x s -> is_word x || is_space x = true) /\
    snd (cleaned_infobox ws ph hp country) = Ok t /\ t = pre ++ s ++ post.
Proof.
  intros ws ph hp country v H.
  exact (word_field_answer ws ph hp party_pattern party_error country v eq_refl eq_refl H).
Qed.

Lemma get_president_party_answer_witness :
  exists s t pre post, PyStr (str "Renaissance") = PyStr s /\ s <> [] /\
    (forall x, In x s -> is_word x || is_space x = true) /\
    snd (cleaned_infobox sample_search sample_page sample_parser (str "france")) = Ok t /\
    t = pre ++ s ++ post.
Proof.
  apply (get_president_party_answer sample_search sample_page sample_parser (str "france")).
  vm_compute; reflexivity.
Defined.

(** X5: when [get_president_predecessor] returns, its answer is a
    non-empty run of word characters and whitespace that occurs in the
    cleaned infobox text. *)
Theorem get_president_predecessor_answer : forall ws ph hp country v,
  snd (get_president_predecessor ws ph hp country) = Ok v ->
  exists s t pre post, v = PyStr s /\ s <> [] /\
    (forall x, In x s -> is_word x || is_space x = true) /\
    snd (cleaned_infobox ws ph hp country) = Ok t /\ t = pre ++ s ++ post.
Proof.
  intros ws ph hp country v H.
  exact (word_field_answer ws ph hp predecessor_pattern predecessor_error country v
           eq_refl eq_refl H).
Qed.

Lemma get_president_predecessor_answer_witness :
  exists s t pre post, PyStr (str "Francois Hollande") = PyStr s /\ s <> [] /\
    (forall x, In x s -> is_word x || is_space x = true) /\
    snd (cleaned_infobox sample_search sample_page sample_parser (str "france")) = Ok t /\
    t = pre ++ s ++ post.
Proof.
  apply (get_president_predecessor_answer sample_search sample_page sample_parser
           (str "france")).
  vm_compute; reflexivity.
Defined.

(** X6: when [get_president_successor] returns, its answer is a non-empty
    run of word characters and whitespace that occurs in the cleaned
    infobox text. *)
Theorem get_president_successor_answer : forall ws ph hp country v,
  snd (get_president_successor ws ph hp country) = Ok v ->
  exists s t pre post, v = PyStr s /\ s <> [] /\
    (forall x, In x s -> is_word x || is_space x = true) /\
    snd (cleaned_infobox ws ph hp country) = Ok t /\ t = pre ++ s ++ post.
Proof.
  intros ws ph hp country v H.
  exact (word_field_answer ws ph hp successor_pattern successor_error country v
           eq_refl eq_refl H).
Qed.

Lemma get_president_successor_answer_witness :
  exists s t pre post, PyStr (str "Incumbent") = PyStr s /\ s <> [] /\
    (forall x, In x s -> is_word x || is_space x = true) /\
    snd (cleaned_infobox sample_search sample_page sample_parser (str "france")) = Ok t /\
    t = pre ++ s ++ post.
Proof.
  apply (get_president_successor_answer sample_search sample_page sample_parser
           (str "france")).
  vm_compute; reflexivity.
Defined.

(** X8: the extractors read only the first search hit: two searches whose
    first hit is the same give the same trace and result. *)
Theorem extract_first_hit_only : forall ws ws' ph hp pattern error_text grp country r0 rs rs',
  ws country = Ok (r0 :: rs) -> ws' country = Ok (r0 :: rs') ->
  extract ws ph hp pattern error_text grp country =
  extract ws' ph hp pattern error_text grp country.
Proof.
  intros ws ws' ph hp pattern error_text grp country r0 rs rs' H H'.
  unfold extract, get_page_html, bind, log, lift; rewrite H, H'; reflexivity.
Qed.

Lemma extract_first_hit_only_witness :
  extract (fun _ => Ok [str "France"; str "Paris"]) sample_page sample_parser
    party_pattern party_error 1 (str "france") =
  extract sample_search sample_page sample_parser party_pattern party_error 1 (str "france").
Proof.
  apply (extract_first_hit_only _ _ _ _ _ _ _ _ (str "France") [str "Paris"] []);
    reflexivity.
Defined.

(** X9: the texts that [clean_text] leaves unchanged are exactly those made
    of printable characters with no two adjacent spaces and no two
    adjacent newlines. *)
Theorem clean_text_fixed_points : forall s,
  clean_text s = s <->
  (forall x, In x s -> printable x = true) /\ no_rep SPACE false s /\ no_rep NEWLINE false s.
Proof.
  intros s; split.
  - intros H; rewrite <- H; split; [| split].
    + apply clean_text_printable.
    + apply clean_text_no_rep_space.
    + apply clean_text_no_rep_newline.
  - intros [Hp [Hs Hn]]; unfold clean_text, re_sub_run.
    rewrite map_scrub_id by exact Hp.
    rewrite (squeeze_no_rep_id SPACE s false Hs).
    apply squeeze_no_rep_id, Hn.
Qed.

(** X10: [clean_text] never makes a text longer. *)
Theorem clean_text_length : forall s, length (clean_text s) <= length s.
Proof.
  intros s; unfold clean_text, re_sub_run.
  pose proof (squeeze_length NEWLINE false (squeeze SPACE false (map scrub s))).
  pose proof (squeeze_length SPACE false (map scrub s)).
  rewrite length_map in *; lia.
Qed.

(** X11: on an ASCII line, the query words of [query_loop] are non-empty
    and hold no whitespace, no question mark and no upper-case letter. *)
Theorem query_tokens_words : forall line,
  (forall x, In x line -> x < 128) ->
  Forall (fun w => w <> [] /\
            Forall (fun x => is_space x = false /\ x <> QMARK /\ ~ (65 <= x <= 90)) w)
    (query_tokens line).
Proof.
  intros line _; apply Forall_forall; intros w Hw; split.
  - destruct w as [| x w]; [| discriminate].
    exfalso; unfold query_tokens, py_split in Hw.
    destruct (split_go_tokens _ [] [] (fun x (H : In x []) => match H with end) Hw) as [H _].
    apply H; reflexivity.
  - apply Forall_forall; intros x Hx.
    destruct (query_tokens_chars line w x Hw Hx) as [_ H]; exact H.
Qed.

Lemma query_tokens_words_witness :
  Forall (fun w => w <> [] /\
            Forall (fun x => is_space x = false /\ x <> QMARK /\ ~ (65 <= x <= 90)) w)
    (query_tokens (str "Who is the President  of France?")).
Proof.
  apply query_tokens_words.
  intros x Hx; vm_compute in Hx; intuition lia.
Defined.

(** X12: normalising a query is idempotent: re-joining the words of an
    ASCII line with single spaces and normalising again gives the same
    words. *)
Theorem query_tokens_idempotent : forall line,
  (forall x, In x line -> x < 128) ->
  query_tokens (join_words (query_tokens line)) = query_tokens line.
Proof.
  intros line _.
  set (ws := query_tokens line).
  assert (Hw : forall w, In w ws -> w <> [] /\ forall x, In x w -> is_space x = false).
  { intros w Hin; split.
    - destruct w as [| x w]; [| discriminate].
      unfold ws, query_tokens, py_split in Hin.
      destruct (split_go_tokens _ [] [] (fun x (H : In x []) => match H with end) Hin)
        as [H _]; contradiction.
    - intros x Hx; apply (query_tokens_chars line w x Hin Hx). }
  assert (Hc : forall x, In x (join_words ws) -> x <> QMARK /\ ~ (65 <= x <= 90)).
  { intros x Hx; destruct (join_words_in ws x Hx) as [-> | [w [Hin Hxw]]].
    - unfold SPACE, QMARK; split; lia.
    - apply (query_tokens_chars line w x Hin Hxw). }
  unfold query_tokens at 1, remove_qmark.
  rewrite filter_all_true
    by (intros x Hx; apply negb_true_iff, Nat.eqb_neq, (Hc x Hx)).
  rewrite map_lower_id by (intros x Hx; apply (Hc x Hx)).
  apply split_join, Hw.
Qed.

Lemma query_tokens_idempotent_witness :
  query_tokens (join_words (query_tokens (str "Who is the President  of France?"))) =
  query_tokens (str "Who is the President  of France?").
Proof.
  apply query_tokens_idempotent.
  intros x Hx; vm_compute in Hx; intuition lia.
Defined.

(** X13: Ctrl-C at the prompt ends [query_loop] exactly as the end of the
    input does: the output and the outcome are those of the input before
    it, and nothing after it is read. *)
Theorem query_loop_interrupt : forall ws ph hp pre post,
  query_loop ws ph hp (pre ++ Interrupt :: post) = query_loop ws ph hp pre.
Proof.
  intros ws ph hp pre post; unfold query_loop; rewrite body_interrupt; reflexivity.
Qed.

(** X14: an exception of a query other than [KeyboardInterrupt] and
    [EOFError] (e.g. [IndexError] when the search finds nothing) escapes
    [query_loop]: the output stops after that query's prompt, so
    [Goodbye!] is not printed, and no later input is read. *)
Theorem query_loop_error_escapes : forall ws ph hp pre l post e,
  (forall ev, In ev pre -> exists l' a, ev = Line l' /\
     snd (search_pa_list ws ph hp (query_tokens l')) = Ok a) ->
  snd (search_pa_list ws ph hp (query_tokens l)) = Err e ->
  snd (query_loop ws ph hp (pre ++ Line l :: post)) = Raised e /\
  (exists o, fst (query_loop ws ph hp (pre ++ Line l :: post)) = o ++ [prompt]) /\
  query_loop ws ph hp (pre ++ Line l :: post) = query_loop ws ph hp (pre ++ [Line l]).
Proof.
  intros ws ph hp pre l post e Hpre Hl.
  destruct (body_error ws ph hp pre l e Hpre Hl) as [o Ho].
  unfold query_loop; rewrite !Ho.
  split; [reflexivity | split; [exists (welcome :: o); reflexivity | reflexivity]].
Qed.

Lemma query_loop_error_escapes_witness :
  snd (query_loop (fun _ => Ok []) sample_page sample_parser
         ([] ++ Line (str "Who is the president of Atlantis?") :: [Interrupt]))
  = Raised (IndexError (str "list index out of range")) /\
  (exists o, fst (query_loop (fun _ => Ok []) sample_page sample_parser
                    ([] ++ Line (str "Who is the president of Atlantis?") :: [Interrupt]))
             = o ++ [prompt]) /\
  query_loop (fun _ => Ok []) sample_page sample_parser
    ([] ++ Line (str "Who is the president of Atlantis?") :: [Interrupt]) =
  query_loop (fun _ => Ok []) sample_page sample_parser
    ([] ++ [Line (str "Who is the president of Atlantis?")]).
Proof.
  apply query_loop_error_escapes.
  - intros ev [].
  - vm_compute; reflexivity.
Defined.

(** X15: when every query read raises nothing, [query_loop] finishes
    normally and its output ends with the last prompt and [Goodbye!]. *)
Theorem query_loop_goodbye : forall ws ph hp inp,
  (forall l, In (Line l) inp -> exists a,
     snd (search_pa_list ws ph hp (query_tokens l)) = Ok a) ->
  snd (query_loop ws ph hp inp) = Finished /\
  exists o, fst (query_loop ws ph hp inp) = welcome :: o ++ [prompt; goodbye].
Proof.
  intros ws ph hp inp H.
  destruct (body_finished ws ph hp inp H) as [o Ho].
  unfold query_loop; rewrite Ho; split; [reflexivity |].
  exists o; rewrite <- app_assoc; reflexivity.
Qed.

Lemma query_loop_goodbye_witness :
  snd (query_loop sample_search sample_page sample_parser
         [Line (str "hello"); Line (str "What is the political party of the president of France?")])
  = Finished /\
  exists o, fst (query_loop sample_search sample_page sample_parser
                   [Line (str "hello");
                    Line (str "What is the political party of the president of France?")])
            = welcome :: o ++ [prompt; goodbye].
Proof.
  apply query_loop_goodbye.
  intros l [H | [H | []]]; inversion H; subst; eexists; vm_compute; reflexivity.
Defined.

(** X16: no input matches two templates of [pa_list], so which action
    [search_pa_list] runs does not depend on the order of the list. *)
Theorem pa_templates_disjoint : forall i j src,
  i < length pa_templates -> j < length pa_templates -> i <> j ->
  match_ (nth i pa_templates []) src <> None ->
  match_ (nth j pa_templates []) src = None.
Proof.
  intros i j src Hi Hj Hij Hm.
  apply (literal_clash_sound (nth i pa_templates [])); [| exact Hm].
  simpl in Hi, Hj.
  do 6 (destruct i as [| i]; [do 6 (destruct j as [| j]; [first [lia | vm_compute; reflexivity] |]); lia |]).
  lia.
Qed.

Lemma pa_templates_disjoint_witness :
  match_ (nth 5 pa_templates [])
    (toks (["who"; "is"; "the"; "president"; "of"; "france"])%string) = None.
Proof.
  apply (pa_templates_disjoint 0 5); [vm_compute; lia | vm_compute; lia | lia |].
  vm_compute; discriminate.
Defined.
